(** * Financial Optimizer: the Monte Carlo core of [main.py]

    A shallow embedding of the three core functions of [main.py]
    ([get_daily_returns], [monte_carlo_simulation], [compute_risk_metrics])
    and the properties the specification states about them.

    Modelling conventions.
    - Python [float] values are the real numbers [R]: rounding, overflow,
      infinities and NaN are not modelled.  Python [int] values are [Z].
      Where the outcome of the code hangs on rounding (the test
      [volatility != 0], the overflow of [** 2]), [compute_risk_metrics] is
      also given on binary64 numbers, in the module [Binary64].
    - Python exceptions are identified by their class name ([exn]); a call
      either returns a value or raises ([outcome]).
    - The observable state of the process is a [world]: what has been
      printed, how many deviates the process-global random generator has
      handed out, and the list objects that live on the heap.  Every
      function of the source is a computation in the monad [M].
    - The SQLite table [stocks] is read only by the core; it is a
      [database]: for every symbol the rows [(date, close_price)] of that
      symbol in date order, rows of one date in the order they were
      inserted. *)

From Stdlib Require Import String ZArith Reals Lra Lia.
From Stdlib Require Import List Sorted Permutation.
From Stdlib Require PrimFloat FloatOps Uint63.
Import ListNotations.
Open Scope R_scope.

(** ** Exceptions, outcomes and the world *)

Inductive exn : Type :=
| Exn (class_name : string).

Definition ZeroDivisionError : exn := Exn "ZeroDivisionError".
Definition IndexError : exn := Exn "IndexError".
Definition ValueError : exn := Exn "ValueError".
Definition TypeError : exn := Exn "TypeError".

(** The two error kinds the specification names.  No statement of
    [main.py] raises either of them. *)
Definition InsufficientDataError : exn := Exn "InsufficientDataError".
Definition InvalidParameterError : exn := Exn "InvalidParameterError".

Inductive outcome (A : Type) : Type :=
| Ok (a : A)
| Raise (e : exn).
Arguments Ok {A} a.
Arguments Raise {A} e.

(** A reference to a list object on the heap. *)
Definition ref : Type := nat.

Record world : Type := mkWorld {
  stdout : list string;     (* lines printed so far *)
  draws : nat;              (* deviates taken from the global generator *)
  heap : list (list R)      (* list objects, addressed by position *)
}.

Definition M (A : Type) : Type := world -> outcome A * world.

Definition ret {A} (a : A) : M A := fun w => (Ok a, w).

Definition raise {A} (e : exn) : M A := fun w => (Raise e, w).

Definition bind {A B} (m : M A) (k : A -> M B) : M B :=
  fun w =>
    match m w with
    | (Ok a, w') => k a w'
    | (Raise e, w') => (Raise e, w')
    end.

Declare Scope py_scope.
Delimit Scope py_scope with py.
Notation "x <- m ;; k" := (bind m (fun x => k))
  (at level 61, m at next level, right associativity) : py_scope.
Notation "m ;;; k" := (bind m (fun _ => k))
  (at level 61, right associativity) : py_scope.
Open Scope py_scope.

(** [[f(x) for x in xs]]: the elements are computed left to right and the
    first exception abandons the comprehension. *)
Fixpoint comprehension {A B} (f : A -> M B) (xs : list A) : M (list B) :=
  match xs with
  | [] => ret []
  | x :: xs' =>
      y <- f x ;;
      ys <- comprehension f xs' ;;
      ret (y :: ys)
  end.

(** [for _ in range(n): state = body(state)], for a loop that runs [n]
    times. *)
Fixpoint for_range {S} (n : nat) (body : S -> M S) (s : S) : M S :=
  match n with
  | O => ret s
  | Datatypes.S n' =>
      s' <- body s ;;
      for_range n' body s'
  end.

(** ** Built-ins of Python used by the core *)

(** [print(line)] *)
Definition print (line : string) : M unit :=
  fun w => (Ok tt, mkWorld (stdout w ++ [line]) (draws w) (heap w)).

(** [x / y] on floats: a zero divisor raises. *)
Definition py_div (x y : R) : M R :=
  if Req_dec_T y 0 then raise ZeroDivisionError else ret (x / y).

(** [len(l)] *)
Definition py_len {A} (l : list A) : Z := Z.of_nat (length l).

(** [range(lo, hi)] and the number of iterations of [range(n)]. *)
Definition py_range (lo hi : Z) : list Z :=
  map (fun k => (lo + Z.of_nat k)%Z) (seq 0 (Z.to_nat (hi - lo))).

Definition range_len (n : Z) : nat := Z.to_nat n.

(** [l[i]]: a negative index counts from the end, an index outside
    [-len(l) .. len(l) - 1] raises [IndexError]. *)
Definition py_getitem {A} (l : list A) (i : Z) : M A :=
  let j := if (i <? 0)%Z then (py_len l + i)%Z else i in
  if (j <? 0)%Z then raise IndexError
  else match nth_error l (Z.to_nat j) with
       | Some a => ret a
       | None => raise IndexError
       end.

(** [sum(l)]: starts from 0 and adds from the left. *)
Definition py_sum (l : list R) : R := fold_left Rplus l 0.

(** [max(l)] and [min(l)]: the first element is the candidate, a later
    element replaces it when it is strictly greater (smaller); the empty
    list raises [ValueError]. *)
Definition max_from (x : R) (l : list R) : R :=
  fold_left (fun m y => if Rgt_dec y m then y else m) l x.

Definition min_from (x : R) (l : list R) : R :=
  fold_left (fun m y => if Rlt_dec y m then y else m) l x.

Definition py_max (l : list R) : M R :=
  match l with
  | [] => raise ValueError
  | x :: l' => ret (max_from x l')
  end.

Definition py_min (l : list R) : M R :=
  match l with
  | [] => raise ValueError
  | x :: l' => ret (min_from x l')
  end.

(** [math.sqrt(x)]: a negative argument raises [ValueError]. *)
Definition math_sqrt (x : R) : M R :=
  if Rlt_dec x 0 then raise ValueError else ret (sqrt x).

(** [int(x)] on a float: truncation towards zero. *)
Definition py_int (x : R) : Z :=
  if Rlt_dec x 0 then (- Int_part (- x))%Z else Int_part x.

(** [sorted(l)] on floats, as a stable insertion sort that compares with
    [<] only. *)
Fixpoint insert_sorted (x : R) (l : list R) : list R :=
  match l with
  | [] => [x]
  | y :: l' => if Rlt_dec x y then x :: y :: l' else y :: insert_sorted x l'
  end.

Definition sort_floats (l : list R) : list R :=
  fold_left (fun acc x => insert_sorted x acc) l [].

(** *** List objects on the heap *)

(** Reading the list object behind a reference. *)
Definition deref (r : ref) : M (list R) :=
  fun w => (Ok (nth r (heap w) []), w).

(** Creating a new list object. *)
Definition alloc (l : list R) : M ref :=
  fun w => (Ok (length (heap w)), mkWorld (stdout w) (draws w) (heap w ++ [l])).

(** [sorted(r)]: a new list object, the argument is only read. *)
Definition py_sorted (r : ref) : M ref :=
  l <- deref r ;;
  alloc (sort_floats l).

(** *** The process-global random generator

    [random.gauss(mu, sigma)] returns [mu + z * sigma], where [z] is the
    next standard normal deviate of the generator.  The deviates the
    generator yields from its seed are the stream [deviate]; the world
    counts how many have been taken. *)
Definition random_gauss (deviate : nat -> R) (mu sigma : R) : M R :=
  fun w =>
    (Ok (mu + deviate (draws w) * sigma),
     mkWorld (stdout w) (S (draws w)) (heap w)).

(** ** The table [stocks] *)

Record row : Type := mkRow {
  date : string;
  close_price : R
}.

(** [db symbol]: the result of
    [SELECT date, close_price FROM stocks WHERE symbol = ? ORDER BY date]. *)
Definition database : Type := string -> list row.

(** [SELECT close_price ... ORDER BY date DESC LIMIT 1] and
    [cursor.fetchone()]: a row of the latest date, the date of the last row
    of the ascending list; when several rows have that date, the one that
    comes first among them (SQLite keeps the rows of one date in insertion
    order in both directions, so the descending list starts with the
    earliest inserted row of the latest date); [None] without any row. *)
Definition latest_row (rows : list row) : option row :=
  match rev rows with
  | [] => None
  | r :: _ => find (fun x => String.eqb (date x) (date r)) rows
  end.

(** [cursor.fetchone()[0]] on that query: with no row, [fetchone()] is
    [None] and the subscript raises [TypeError]. *)
Definition last_close (db : database) (symbol : string) : M R :=
  match latest_row (db symbol) with
  | None => raise TypeError
  | Some r => ret (close_price r)
  end.

(** ** [get_daily_returns] (lines 58-68) *)

Definition get_daily_returns (db : database) (symbol : string)
  : M (option (list R)) :=
  let rows := db symbol in
  if (py_len rows <? 2)%Z then
    print "Not enough data for simulation." ;;;
    ret None
  else
    returns <- comprehension
      (fun i =>
         cur <- py_getitem rows i ;;
         prev <- py_getitem rows (i - 1) ;;
         prev' <- py_getitem rows (i - 1) ;;
         py_div (close_price cur - close_price prev) (close_price prev'))
      (py_range 1 (py_len rows)) ;;
    ret (Some returns).

(** ** [monte_carlo_simulation] (lines 70-91) *)

(** Line 74: [sum(returns) / len(returns)]. *)
Definition average_return (returns : list R) : M R :=
  py_div (py_sum returns) (IZR (py_len returns)).

(** Line 75: [(max(returns) - min(returns)) / 2]. *)
Definition range_volatility (returns : list R) : M R :=
  hi <- py_max returns ;;
  lo <- py_min returns ;;
  py_div (hi - lo) 2.

(** Lines 83-89: one path.  The loop state is [(price, path)]. *)
Definition simulate_path (deviate : nat -> R)
    (last_close_price avg_return volatility : R) (days : Z) : M (list R) :=
  let price := last_close_price in
  let path := [price] in
  final <- for_range (range_len days)
    (fun '(price, path) =>
       random_factor <- random_gauss deviate avg_return volatility ;;
       let price := price * (1 + random_factor) in
       ret (price, path ++ [price]))
    (price, path) ;;
  ret (snd final).

(** Lines 81-91: the ensemble.  The loop state is [simulations_result]. *)
Definition simulate (deviate : nat -> R)
    (last_close_price avg_return volatility : R) (days simulations : Z)
  : M (list (list R)) :=
  for_range (range_len simulations)
    (fun simulations_result =>
       path <- simulate_path deviate last_close_price avg_return volatility
                 days ;;
       ret (simulations_result ++ [path]))
    [].

Definition monte_carlo_simulation (db : database) (deviate : nat -> R)
    (symbol : string) (days simulations : Z) : M (option (list (list R))) :=
  returns <- get_daily_returns db symbol ;;
  match returns with
  | None => ret None
  | Some [] => ret None
  | Some returns =>
      avg_return <- average_return returns ;;
      volatility <- range_volatility returns ;;
      last_close_price <- last_close db symbol ;;
      simulations_result <- simulate deviate last_close_price avg_return
                              volatility days simulations ;;
      ret (Some simulations_result)
  end.

(** ** [compute_risk_metrics] (lines 93-100)

    [final_prices] is the caller's list object. *)
Definition compute_risk_metrics (final_prices : ref) (risk_free_rate : R)
  : M (R * R * R) :=
  sorted_prices <- py_sorted final_prices ;;
  sorted_list <- deref sorted_prices ;;
  let index_5 := py_int (5 / 100 * IZR (py_len sorted_list)) in
  var_95 <- py_getitem sorted_list index_5 ;;
  prices <- deref final_prices ;;
  expected_return <- py_div (py_sum prices) (IZR (py_len prices)) ;;
  prices' <- deref final_prices ;;
  mean_square <- py_div
    (py_sum (map (fun x => (x - expected_return) ^ 2) prices'))
    (IZR (py_len prices')) ;;
  volatility <- math_sqrt mean_square ;;
  sharpe_ratio <- (if Req_dec_T volatility 0 then ret 0
                   else py_div (expected_return - risk_free_rate) volatility) ;;
  ret (var_95, expected_return, sharpe_ratio).

(** ** Auxiliary definitions for the statements *)

(** The return the comprehension computes at index [i] of [rows]. *)
Definition return_at (rows : list row) (i : Z) : R :=
  let d := mkRow "" 0 in
  (close_price (nth (Z.to_nat i) rows d)
   - close_price (nth (Z.to_nat (i - 1)) rows d))
  / close_price (nth (Z.to_nat (i - 1)) rows d).

(** The world after [n] more deviates have been drawn. *)
Definition advance (w : world) (n : nat) : world :=
  mkWorld (stdout w) (n + draws w) (heap w).

(** The prices that follow [price] on a path of [n] steps whose first
    draw is deviate number [k]. *)
Fixpoint walk (deviate : nat -> R) (avg_return volatility : R)
    (n k : nat) (price : R) : list R :=
  match n with
  | O => []
  | S n' =>
      let price' := price * (1 + (avg_return + deviate k * volatility)) in
      price' :: walk deviate avg_return volatility n' (S k) price'
  end.

(** [m] paths of [n] steps each, the first draw being deviate number [k]. *)
Definition ensemble (deviate : nat -> R) (start avg_return volatility : R)
    (n m k : nat) : list (list R) :=
  map (fun j => start :: walk deviate avg_return volatility n (k + j * n) start)
      (seq 0 m).

(** The statistics in the words of the specification. *)
Definition total (l : list R) : R := fold_right Rplus 0 l.

Definition mean (l : list R) : R := total l / INR (length l).

(** Population standard deviation: the squared deviations from the mean,
    summed, divided by the count, square-rooted. *)
Definition pstdev (l : list R) : R :=
  sqrt (total (map (fun x => (x - mean l) ^ 2) l) / INR (length l)).

(** The lower-tail index [floor(0.05 * n)]. *)
Definition floor_index (n : nat) : nat :=
  Z.to_nat (Int_part (5 / 100 * INR n)).

(** The values lines 67, 74, 75 and 79 compute when nothing is raised. *)
Definition returns_of (rows : list row) : list R :=
  map (return_at rows) (py_range 1 (py_len rows)).

Definition avg_return_of (returns : list R) : R :=
  py_sum returns / IZR (py_len returns).

Definition volatility_of (returns : list R) : R :=
  match returns with
  | [] => 0
  | x :: l => (max_from x l - min_from x l) / 2
  end.

Definition latest_close (rows : list row) : R :=
  match latest_row rows with
  | None => 0
  | Some r => close_price r
  end.

(** The world after a new list object [l] has been created. *)
Definition with_object (w : world) (l : list R) : world :=
  mkWorld (stdout w) (draws w) (heap w ++ [l]).

(** ** Sample data *)

Definition world0 : world := mkWorld [] 0 [].

Definition one_record : database :=
  fun _ => [mkRow "2025-01-02" 100].

Definition two_records : database :=
  fun _ => [mkRow "2025-01-02" 100; mkRow "2025-01-03" 110].

(** A history that doubles and halves again. *)
Definition spike : database :=
  fun _ => [mkRow "2025-01-02" 100; mkRow "2025-01-03" 200;
            mkRow "2025-01-06" 100].

(** A history whose first close is zero. *)
Definition zero_close : database :=
  fun _ => [mkRow "2025-01-02" 0; mkRow "2025-01-03" 5].

(** The terminal prices of the specification's example, and a heap whose
    only object is that list. *)
Definition example_prices : list R := [90; 95; 100; 105; 110].

Definition example_world : world := mkWorld [] 0 [example_prices].

(** A heap whose only object is the empty list. *)
Definition empty_prices_world : world := mkWorld [] 0 [[]].

(** ** Counting prices against a threshold *)

(** How many elements of [l] are strictly below [v], and how many are at
    most [v]. *)
Definition count_below (v : R) (l : list R) : nat :=
  length (filter (fun x => if Rlt_dec x v then true else false) l).

Definition count_up_to (v : R) (l : list R) : nat :=
  length (filter (fun x => if Rle_dec x v then true else false) l).

(** ** The callbacks of the application (lines 134-160, 177-210, 232-273)

    The computation of [run_sim], [run_risk] and [run_portfolio].  What a
    callback reads from its entry widgets is an argument: the symbol text
    after [.strip().upper()], and for a numeric entry the number [int(...)]
    or [float(...)] parses, [None] when the conversion raises.  What the
    callback shows is its result: the error dialog, or the values it
    displays (the formatting to two decimals and the drawing of the plot
    are not modelled). *)

Inductive view (A : Type) : Type :=
| ShowError (title message : string)
| Display (shown : A).
Arguments ShowError {A} title message.
Arguments Display {A} shown.

(** [try: n = int(entry.get()) except: n = default] *)
Definition int_or (parsed : option Z) (default : Z) : Z :=
  match parsed with
  | Some n => n
  | None => default
  end.

(** [try: qty = float(entry.get()) except: qty = 0] *)
Definition float_or (parsed : option R) (default : R) : R :=
  match parsed with
  | Some x => x
  | None => default
  end.

(** [text or "AAPL"]: the empty string is false. *)
Definition symbol_or_default (text : string) : string :=
  match text with
  | EmptyString => "AAPL"
  | _ => text
  end.

(** [[path[-1] for path in sim_paths]] *)
Definition final_prices_of (sim_paths : list (list R)) : M (list R) :=
  comprehension (fun path => py_getitem path (-1)) sim_paths.

(** [run_sim] (lines 134-160): every path returned is plotted. *)
Definition run_sim (db : database) (deviate : nat -> R)
    (symbol_text : string) (days_text sim_text : option Z)
  : M (view (list (list R))) :=
  let symbol := symbol_or_default symbol_text in
  let days := int_or days_text 30 in
  let simulations := int_or sim_text 1000 in
  sim_paths <- monte_carlo_simulation db deviate symbol days simulations ;;
  match sim_paths with
  | None => ret (ShowError "Error"
                   "No simulation data available. Check stock data.")
  | Some [] => ret (ShowError "Error"
                      "No simulation data available. Check stock data.")
  | Some sim_paths => ret (Display sim_paths)
  end.

(** [run_risk] (lines 177-208): the metrics are shown in a label and every
    path is plotted.  [final_prices] is a new list object. *)
Definition run_risk (db : database) (deviate : nat -> R)
    (symbol_text : string) (days_text sim_text : option Z)
  : M (view (R * R * R * list (list R))) :=
  let symbol := symbol_or_default symbol_text in
  let days := int_or days_text 30 in
  let simulations := int_or sim_text 1000 in
  sim_paths <- monte_carlo_simulation db deviate symbol days simulations ;;
  match sim_paths with
  | None => ret (ShowError "Error"
                   "No simulation data available. Check stock data.")
  | Some [] => ret (ShowError "Error"
                      "No simulation data available. Check stock data.")
  | Some sim_paths =>
      prices <- final_prices_of sim_paths ;;
      final_prices <- alloc prices ;;
      metrics <- compute_risk_metrics final_prices (1 / 100) ;;
      ret (Display (metrics, sim_paths))
  end.

(** [for x in xs: state = body(x, state)] *)
Fixpoint for_each {A S} (xs : list A) (body : A -> S -> M S) (s : S) : M S :=
  match xs with
  | [] => ret s
  | x :: xs' =>
      s' <- body x s ;;
      for_each xs' body s'
  end.

(** [run_portfolio] (lines 232-273). *)
Definition stocks : list string := ["AAPL"; "GOOGL"; "MSFT"]%string.

(** One line of [results_text]: symbol, quantity, initial price, predicted
    average. *)
Definition result_line : Type := string * R * R * R.

Record totals : Type := mkTotals {
  total_initial : R;
  total_predicted : R;
  results_text : list result_line
}.

(** The body of the loop over [stocks] (lines 240-262); [continue] leaves
    the totals as they are. *)
Definition portfolio_step (db : database) (deviate : nat -> R)
    (qty_text : string -> option R) (days : Z) (sym : string) (acc : totals)
  : M totals :=
  let qty := float_or (qty_text sym) 0 in
  match latest_row (db sym) with
  | None => ret acc
  | Some r =>
      let initial_price := close_price r in
      sim_paths <- monte_carlo_simulation db deviate sym days 100 ;;
      match sim_paths with
      | None => ret acc
      | Some [] => ret acc
      | Some sim_paths =>
          final_prices <- final_prices_of sim_paths ;;
          avg_final_price <- py_div (py_sum final_prices)
                               (IZR (py_len final_prices)) ;;
          ret (mkTotals
                 (total_initial acc + qty * initial_price)
                 (total_predicted acc + qty * avg_final_price)
                 (results_text acc
                  ++ [(sym, qty, initial_price, avg_final_price)]))
      end
  end.

(** The result shown: the overall return in percent and the totals. *)
Definition run_portfolio (db : database) (deviate : nat -> R)
    (qty_text : string -> option R) (days_text : option Z)
  : M (view (R * totals)) :=
  let days := int_or days_text 30 in
  acc <- for_each stocks (portfolio_step db deviate qty_text days)
           (mkTotals 0 0 []) ;;
  if Req_dec_T (total_initial acc) 0 then
    ret (ShowError "Error" "No valid data for portfolio calculation.")
  else
    ratio <- py_div (total_predicted acc - total_initial acc)
               (total_initial acc) ;;
    let overall_return := ratio * 100 in
    ret (Display (overall_return, acc)).

(** The terminal prices of an ensemble. *)
Definition terminal_prices (paths : list (list R)) : list R :=
  map (fun path => last path 0) paths.

(** No close that is used as a divisor is zero. *)
Definition divisors_nonzero (rows : list row) : Prop :=
  forall i : nat, (i < length rows - 1)%nat ->
    nth i (map close_price rows) 0 <> 0.

(** The initial value of the portfolio: the quantity times the latest
    close, over the symbols of [stocks] that have at least two rows. *)
Definition add_initial (db : database) (qty_text : string -> option R)
    (value : R) (sym : string) : R :=
  if (2 <=? length (db sym))%nat
  then value + float_or (qty_text sym) 0 * latest_close (db sym)
  else value.

Definition initial_value (db : database) (qty_text : string -> option R) : R :=
  fold_left (add_initial db qty_text) stocks 0.

(** Sample data for the portfolio: only "AAPL" has rows, and two shares of
    it are held. *)
Definition portfolio_db : database :=
  fun sym => if String.eqb sym "AAPL" then two_records sym else [].

Definition portfolio_qty : string -> option R :=
  fun sym => if String.eqb sym "AAPL" then Some 2 else None.

(** A history with two rows on its latest date, as a second fetch on the
    same day leaves it. *)
Definition duplicate_date : database :=
  fun _ => [mkRow "2025-01-02" 100; mkRow "2025-01-03" 110;
            mkRow "2025-01-03" 220].

(** ** [compute_risk_metrics] on binary64 numbers

    Lines 93-100 once more, now with Python's [float] as IEEE 754 binary64
    and every operation rounded as the interpreter rounds it.  The list is
    a value here: what the call does to the heap is the subject of the
    model above.  [sum] adds from the left; [x ** 2] is the correctly
    rounded square and raises [OverflowError] when a finite [x] has no
    finite square; [len] is converted exactly (below [2^53]). *)

Definition OverflowError : exn := Exn "OverflowError".

(** A bound on the prices under which no squared deviation, and no sum of
    them over a list that fits in memory, leaves the binary64 range. *)
Definition safe_magnitude : R := 10 ^ 100.

Module Binary64.

Import PrimFloat.
#[local] Set Warnings "-inexact-float".
Local Open Scope float_scope.

Definition and_then {A B} (m : outcome A) (k : A -> outcome B) : outcome B :=
  match m with
  | Ok a => k a
  | Raise e => Raise e
  end.

Notation "x <-- m ;; k" := (and_then m (fun x => k))
  (at level 61, m at next level, right associativity).

(** [float(n)] for an [int]. *)
Definition float_of_int (n : Z) : float := of_uint63 (Uint63.of_Z n).

(** [x / y]: a zero divisor, of either sign, raises. *)
Definition py_div (x y : float) : outcome float :=
  if y =? 0 then Raise ZeroDivisionError else Ok (x / y).

(** [sum(l)] *)
Definition py_sum (l : list float) : float := fold_left add l 0.

(** [x ** 2] *)
Definition py_square (x : float) : outcome float :=
  if is_nan x then Ok x
  else if is_infinity x then Ok infinity
  else if is_infinity (x * x) then Raise OverflowError
  else Ok (x * x).

(** [math.sqrt(x)] *)
Definition math_sqrt (x : float) : outcome float :=
  if x <? 0 then Raise ValueError else Ok (sqrt x).

(** [int(x)]: truncation towards zero; an infinity raises
    [OverflowError], a NaN [ValueError]. *)
Definition py_int (x : float) : outcome Z :=
  match FloatOps.Prim2SF x with
  | SpecFloat.S754_zero _ => Ok 0%Z
  | SpecFloat.S754_finite negative m e =>
      let magnitude :=
        if (0 <=? e)%Z then (Zpos m * 2 ^ e)%Z else (Zpos m / 2 ^ (- e))%Z in
      Ok (if negative then (- magnitude)%Z else magnitude)
  | SpecFloat.S754_infinity _ => Raise OverflowError
  | SpecFloat.S754_nan => Raise ValueError
  end.

(** [l[i]] *)
Definition py_getitem {A} (l : list A) (i : Z) : outcome A :=
  let j := if (i <? 0)%Z then (py_len l + i)%Z else i in
  if (j <? 0)%Z then Raise IndexError
  else match nth_error l (Z.to_nat j) with
       | Some a => Ok a
       | None => Raise IndexError
       end.

(** [sorted(l)]: a stable insertion sort that compares with [<] only. *)
Fixpoint insert_sorted (x : float) (l : list float) : list float :=
  match l with
  | [] => [x]
  | y :: l' => if x <? y then x :: y :: l' else y :: insert_sorted x l'
  end.

Definition sort_floats (l : list float) : list float :=
  fold_left (fun acc x => insert_sorted x acc) l [].

(** [sum((x - expected_return) ** 2 for x in final_prices)]: the first
    square that overflows ends the sum. *)
Fixpoint sum_squares (expected_return : float) (l : list float)
    (acc : float) : outcome float :=
  match l with
  | [] => Ok acc
  | x :: l' =>
      square <-- py_square (x - expected_return) ;;
      sum_squares expected_return l' (acc + square)
  end.

Definition compute_risk_metrics (final_prices : list float)
    (risk_free_rate : float) : outcome (float * float * float) :=
  let sorted_prices := sort_floats final_prices in
  index_5 <-- py_int (0.05 * float_of_int (py_len sorted_prices)) ;;
  var_95 <-- py_getitem sorted_prices index_5 ;;
  expected_return <-- py_div (py_sum final_prices)
                        (float_of_int (py_len final_prices)) ;;
  squares <-- sum_squares expected_return final_prices 0 ;;
  mean_square <-- py_div squares (float_of_int (py_len final_prices)) ;;
  volatility <-- math_sqrt mean_square ;;
  sharpe_ratio <-- (if volatility =? 0 then Ok 0
                    else py_div (expected_return - risk_free_rate)
                           volatility) ;;
  Ok (var_95, expected_return, sharpe_ratio).

(** The parts of the result, named. *)
Definition mean_of (final_prices : list float) : outcome float :=
  py_div (py_sum final_prices) (float_of_int (py_len final_prices)).

Definition volatility_of (final_prices : list float)
    (expected_return : float) : outcome float :=
  squares <-- sum_squares expected_return final_prices 0 ;;
  mean_square <-- py_div squares (float_of_int (py_len final_prices)) ;;
  math_sqrt mean_square.

Definition sharpe_of (expected_return risk_free_rate volatility : float)
  : float :=
  if volatility =? 0 then 0
  else (expected_return - risk_free_rate) / volatility.

(** The inputs and results of the runs below. *)
Definition rate : float := 0.01.

Definition example_prices : list float := [90; 95; 100; 105; 110].

Definition example_metrics : float * float * float :=
  (90, 100, (100 - 0.01) / sqrt 50).

Definition hundreds : list float := [100; 100; 100].

Definition hundreds_metrics : float * float * float := (100, 100, 0).

Definition tenths : list float := [0.1; 0.1; 0.1].

Definition tenths_metrics : float * float * float :=
  (0.1, 0.10000000000000002, 6485183463413516).

Definition huge_prices : list float := [1e200; 3e200].

Definition is_zero (x : float) : bool := x =? 0.

End Binary64.

(** * Properties *)

(** ** The monad and the built-ins *)

Lemma bind_ok {A B} (m : M A) (k : A -> M B) (w w' : world) (a : A) :
  m w = (Ok a, w') -> bind m k w = k a w'.
Proof. intros H. unfold bind. now rewrite H. Qed.

Lemma bind_raise {A B} (m : M A) (k : A -> M B) (w w' : world) (e : exn) :
  m w = (Raise e, w') -> bind m k w = (Raise e, w').
Proof. intros H. unfold bind. now rewrite H. Qed.

(** One statement of a function body has run: continue after it. *)
Ltac step H := rewrite (bind_ok _ _ _ _ _ H).


Lemma py_div_ok (x y : R) (w : world) :
  y <> 0 -> py_div x y w = (Ok (x / y), w).
Proof.
  intros Hy. unfold py_div. destruct (Req_dec_T y 0) as [E | _].
  - contradiction.
  - reflexivity.
Qed.

Lemma py_div_zero (x : R) (w : world) :
  py_div x 0 w = (Raise ZeroDivisionError, w).
Proof.
  unfold py_div. destruct (Req_dec_T 0 0) as [_ | N].
  - reflexivity.
  - now elim N.
Qed.

Lemma py_getitem_ok {A} (l : list A) (i : Z) (d : A) (w : world) :
  (0 <= i < py_len l)%Z ->
  py_getitem l i w = (Ok (nth (Z.to_nat i) l d), w).
Proof.
  intros [Hlo Hhi]. unfold py_getitem, py_len in *.
  destruct (i <? 0)%Z eqn:Ei; [apply Z.ltb_lt in Ei; lia |].
  rewrite Ei.
  destruct (nth_error l (Z.to_nat i)) as [a |] eqn:En.
  - now rewrite (nth_error_nth _ _ d En).
  - apply nth_error_None in En. lia.
Qed.

Lemma py_getitem_empty {A} (i : Z) (w : world) :
  py_getitem (@nil A) i w = (Raise IndexError, w).
Proof.
  unfold py_getitem, py_len. cbn [length Z.of_nat].
  destruct (i <? 0)%Z eqn:Ei.
  - rewrite Z.add_0_l, Ei. reflexivity.
  - rewrite Ei. now destruct (Z.to_nat i).
Qed.

Lemma comprehension_pure {A B} (f : A -> M B) (g : A -> B) (xs : list A)
    (w : world) :
  (forall x, In x xs -> f x w = (Ok (g x), w)) ->
  comprehension f xs w = (Ok (map g xs), w).
Proof.
  induction xs as [| x xs IH]; intros Hf.
  - reflexivity.
  - cbn [comprehension map].
    rewrite (bind_ok _ _ w w (g x)) by (apply Hf; now left).
    rewrite (bind_ok _ _ w w (map g xs)).
    + reflexivity.
    + apply IH. intros y Hy. apply Hf. now right.
Qed.

Lemma py_range_length (lo hi : Z) :
  length (py_range lo hi) = Z.to_nat (hi - lo).
Proof. unfold py_range. now rewrite length_map, length_seq. Qed.

Lemma py_range_In (lo hi i : Z) :
  In i (py_range lo hi) -> (lo <= i < hi)%Z.
Proof.
  unfold py_range. rewrite in_map_iff. intros [k [<- Hk]].
  apply in_seq in Hk. lia.
Qed.

Lemma py_range_nth (lo hi : Z) (k : nat) (d : Z) :
  (k < Z.to_nat (hi - lo))%nat ->
  nth k (py_range lo hi) d = (lo + Z.of_nat k)%Z.
Proof.
  intros Hk. unfold py_range.
  set (f := fun j : nat => (lo + Z.of_nat j)%Z).
  rewrite (nth_indep _ d (f 0%nat)) by now rewrite length_map, length_seq.
  rewrite (map_nth f), seq_nth by assumption. reflexivity.
Qed.

(** ** [get_daily_returns] *)

Lemma get_daily_returns_run (db : database) (symbol : string) (w : world) :
  (2 <= length (db symbol))%nat ->
  Forall (fun r => close_price r <> 0) (db symbol) ->
  get_daily_returns db symbol w
  = (Ok (Some (map (return_at (db symbol))
                   (py_range 1 (py_len (db symbol))))), w).
Proof.
  intros Hlen Hnz. unfold get_daily_returns.
  destruct (py_len (db symbol) <? 2)%Z eqn:E.
  - apply Z.ltb_lt in E. unfold py_len in E. lia.
  - erewrite bind_ok; [reflexivity |].
    apply comprehension_pure. intros i Hi.
    apply py_range_In in Hi. set (d := mkRow "" 0).
    rewrite (bind_ok _ _ w w (nth (Z.to_nat i) (db symbol) d))
      by (apply py_getitem_ok; lia).
    rewrite (bind_ok _ _ w w (nth (Z.to_nat (i - 1)) (db symbol) d))
      by (apply py_getitem_ok; lia).
    rewrite (bind_ok _ _ w w (nth (Z.to_nat (i - 1)) (db symbol) d))
      by (apply py_getitem_ok; lia).
    apply py_div_ok.
    rewrite Forall_forall in Hnz. apply Hnz, nth_In.
    unfold py_len in Hi. lia.
Qed.

(** C3: on a price history with at least 2 records (closes positive, as
    the data model has them) [get_daily_returns] returns, without any
    effect, a series with one element fewer than the history whose element
    [i] is [(close[i+1] - close[i]) / close[i]]; on exactly 2 records the
    series is [[(p1 - p0) / p0]]. *)
Theorem get_daily_returns_series (db : database) (symbol : string)
    (w : world) :
  (2 <= length (db symbol))%nat ->
  Forall (fun r => 0 < close_price r) (db symbol) ->
  exists returns : list R,
    get_daily_returns db symbol w = (Ok (Some returns), w)
    /\ length returns = (length (db symbol) - 1)%nat
    /\ (forall i : nat, (i < length (db symbol) - 1)%nat ->
          nth i returns 0
          = (nth (i + 1) (map close_price (db symbol)) 0
             - nth i (map close_price (db symbol)) 0)
            / nth i (map close_price (db symbol)) 0)
    /\ (forall r0 r1 : row, db symbol = [r0; r1] ->
          returns
          = [(close_price r1 - close_price r0) / close_price r0]).
Proof.
  intros Hlen Hpos.
  exists (map (return_at (db symbol)) (py_range 1 (py_len (db symbol)))).
  split; [| split; [| split]].
  - apply get_daily_returns_run; [assumption |].
    eapply Forall_impl; [| exact Hpos]. cbn. intros r Hr. lra.
  - rewrite length_map, py_range_length. unfold py_len. lia.
  - intros i Hi.
    rewrite (nth_indep _ 0 (return_at (db symbol) 0))
      by (rewrite length_map, py_range_length; unfold py_len; lia).
    rewrite map_nth, (py_range_nth _ _ _ 0%Z) by (unfold py_len; lia).
    unfold return_at.
    replace (Z.to_nat (1 + Z.of_nat i)) with (i + 1)%nat by lia.
    replace (Z.to_nat (1 + Z.of_nat i - 1)) with i by lia.
    change 0 with (close_price (mkRow "" 0)) at 4 5 6.
    now rewrite !map_nth.
  - intros r0 r1 E. rewrite E. reflexivity.
Qed.

Lemma get_daily_returns_series_witness :
  exists returns : list R,
    get_daily_returns two_records "AAPL" world0 = (Ok (Some returns), world0)
    /\ length returns = 1%nat
    /\ returns = [(110 - 100) / 100].
Proof.
  destruct (get_daily_returns_series two_records "AAPL" world0)
    as [returns [Hrun [Hlen [_ Htwo]]]].
  - cbn. lia.
  - repeat constructor; cbn; lra.
  - exists returns. split; [exact Hrun |]. split; [exact Hlen |].
    exact (Htwo _ _ eq_refl).
Defined.

(** A zero close divides by zero: the comprehension is abandoned at its
    first element. *)
Example get_daily_returns_zero_close :
  get_daily_returns zero_close "AAPL" world0
  = (Raise ZeroDivisionError, world0).
Proof.
  unfold get_daily_returns.
  change (py_len (zero_close "AAPL"%string) <? 2)%Z with false.
  change (py_range 1 (py_len (zero_close "AAPL"%string))) with [1%Z].
  cbn [comprehension]. apply bind_raise, bind_raise.
  rewrite (bind_ok _ _ world0 world0 (mkRow "2025-01-03" 5)) by reflexivity.
  rewrite (bind_ok _ _ world0 world0 (mkRow "2025-01-02" 0)) by reflexivity.
  rewrite (bind_ok _ _ world0 world0 (mkRow "2025-01-02" 0)) by reflexivity.
  apply py_div_zero.
Qed.

(** C8 as stated fails: a history of exactly one record makes
    [get_daily_returns] print a line and return [None]; nothing is
    raised. *)
Lemma get_daily_returns_one_record_no_failure :
  get_daily_returns one_record "AAPL" world0
  = (Ok None, mkWorld ["Not enough data for simulation."%string] 0 [])
  /\ fst (get_daily_returns one_record "AAPL" world0)
     <> Raise InsufficientDataError.
Proof. split; [reflexivity | discriminate]. Qed.

(** C8, amended: on a price history with fewer than 2 records
    [get_daily_returns] raises nothing; it prints
    "Not enough data for simulation." and returns [None]. *)
Theorem get_daily_returns_short_history (db : database) (symbol : string)
    (w : world) :
  (length (db symbol) < 2)%nat ->
  get_daily_returns db symbol w
  = (Ok None,
     mkWorld (stdout w ++ ["Not enough data for simulation."%string])
             (draws w) (heap w)).
Proof.
  intros Hlen. unfold get_daily_returns.
  destruct (py_len (db symbol) <? 2)%Z eqn:E.
  - reflexivity.
  - apply Z.ltb_ge in E. unfold py_len in E. lia.
Qed.

Lemma get_daily_returns_short_history_witness :
  get_daily_returns one_record "AAPL" world0
  = (Ok None, mkWorld ["Not enough data for simulation."%string] 0 []).
Proof.
  apply (get_daily_returns_short_history one_record "AAPL" world0).
  cbn. lia.
Defined.

(** ** The simulation loops *)

Lemma advance_0 (w : world) : advance w 0 = w.
Proof. now destruct w. Qed.

Lemma advance_advance (w : world) (a b : nat) :
  advance (advance w a) b = advance w (a + b).
Proof. unfold advance. cbn. f_equal. lia. Qed.

Section Simulation.

Variable deviate : nat -> R.
Variables start avg vol : R.

Lemma random_gauss_run (mu sigma : R) (w : world) :
  random_gauss deviate mu sigma w
  = (Ok (mu + deviate (draws w) * sigma), advance w 1).
Proof. reflexivity. Qed.

Lemma path_loop_run (n : nat) :
  forall (price : R) (path : list R) (w : world),
  exists final_price : R,
    for_range n
      (fun '(price, path) =>
         random_factor <- random_gauss deviate avg vol ;;
         let price := price * (1 + random_factor) in
         ret (price, path ++ [price]))
      (price, path) w
    = (Ok (final_price, path ++ walk deviate avg vol n (draws w) price),
       advance w n).
Proof.
  induction n as [| n IH]; intros price path w.
  - exists price. cbn. now rewrite app_nil_r, advance_0.
  - cbn [for_range walk].
    set (price' := price * (1 + (avg + deviate (draws w) * vol))).
    destruct (IH price' (path ++ [price']) (advance w 1)) as [fp Hfp].
    exists fp.
    rewrite (bind_ok _ _ w (advance w 1) (price', path ++ [price']))
      by reflexivity.
    etransitivity; [exact Hfp |].
    rewrite <- app_assoc, advance_advance. reflexivity.
Qed.

Lemma simulate_path_run (days : Z) (w : world) :
  simulate_path deviate start avg vol days w
  = (Ok (start :: walk deviate avg vol (Z.to_nat days) (draws w) start),
     advance w (Z.to_nat days)).
Proof.
  unfold simulate_path, range_len.
  destruct (path_loop_run (Z.to_nat days) start [start] w) as [fp Hfp].
  now step Hfp.
Qed.

Lemma ensemble_S (n m k : nat) :
  ensemble deviate start avg vol n (S m) k
  = (start :: walk deviate avg vol n k start)
    :: ensemble deviate start avg vol n m (n + k).
Proof.
  unfold ensemble. cbn [seq map]. f_equal.
  - f_equal. f_equal. lia.
  - rewrite <- seq_shift, map_map. apply map_ext. intros j.
    f_equal. f_equal. lia.
Qed.

Lemma ensemble_length (n m k : nat) :
  length (ensemble deviate start avg vol n m k) = m.
Proof. unfold ensemble. now rewrite length_map, length_seq. Qed.

Lemma walk_length (n : nat) :
  forall (k : nat) (price : R), length (walk deviate avg vol n k price) = n.
Proof.
  induction n as [| n IH]; intros k price; cbn; [reflexivity |].
  now rewrite IH.
Qed.

Lemma ensemble_In (n m k : nat) (path : list R) :
  In path (ensemble deviate start avg vol n m k) ->
  exists j : nat,
    (j < m)%nat /\ path = start :: walk deviate avg vol n (k + j * n) start.
Proof.
  unfold ensemble. rewrite in_map_iff. intros [j [<- Hj]].
  apply in_seq in Hj. exists j. split; [lia | reflexivity].
Qed.

Lemma ensemble_loop_run (days : Z) (m : nat) :
  forall (acc : list (list R)) (w : world),
    for_range m
      (fun simulations_result =>
         path <- simulate_path deviate start avg vol days ;;
         ret (simulations_result ++ [path]))
      acc w
    = (Ok (acc ++ ensemble deviate start avg vol (Z.to_nat days) m (draws w)),
       advance w (m * Z.to_nat days)).
Proof.
  induction m as [| m IH]; intros acc w.
  - cbn. now rewrite app_nil_r, advance_0.
  - cbn [for_range].
    rewrite (bind_ok _ _ w (advance w (Z.to_nat days))
               (acc ++ [start :: walk deviate avg vol (Z.to_nat days)
                                  (draws w) start])).
    + rewrite IH, ensemble_S, <- app_assoc, advance_advance. reflexivity.
    + now step (simulate_path_run days w).
Qed.

(** [simulate] never raises: it returns the ensemble and has drawn one
    deviate per step of every path. *)
Lemma simulate_run (days simulations : Z) (w : world) :
  simulate deviate start avg vol days simulations w
  = (Ok (ensemble deviate start avg vol (Z.to_nat days)
           (Z.to_nat simulations) (draws w)),
     advance w (Z.to_nat simulations * Z.to_nat days)).
Proof. unfold simulate, range_len. now rewrite ensemble_loop_run. Qed.

End Simulation.


(** C2: for [days >= 0], every path of the ensemble [simulate] returns
    has exactly [days + 1] elements and its element 0 is the start price;
    the ensemble has one path per simulation. *)
Theorem simulate_path_shape (deviate : nat -> R) (start avg vol : R)
    (days simulations : Z) (w : world) :
  (0 <= days)%Z ->
  exists (paths : list (list R)) (w' : world),
    simulate deviate start avg vol days simulations w = (Ok paths, w')
    /\ length paths = Z.to_nat simulations
    /\ Forall (fun path => py_len path = (days + 1)%Z
                           /\ nth_error path 0 = Some start) paths.
Proof.
  intros Hdays. eexists. eexists. split; [apply simulate_run |].
  split; [apply ensemble_length |].
  apply Forall_forall. intros path Hin.
  apply ensemble_In in Hin. destruct Hin as [j [_ ->]].
  split; [| reflexivity].
  unfold py_len. cbn [length]. rewrite walk_length. lia.
Qed.

Lemma simulate_path_shape_witness :
  exists (paths : list (list R)) (w' : world),
    simulate (fun _ => 0) 100 0 0 10 5 world0 = (Ok paths, w')
    /\ length paths = 5%nat
    /\ Forall (fun path => py_len path = 11%Z
                           /\ nth_error path 0 = Some 100) paths.
Proof.
  apply (simulate_path_shape (fun _ => 0) 100 0 0 10 5 world0). lia.
Defined.

(** ** [monte_carlo_simulation] *)

Lemma py_len_nonzero {A} (x : A) (l : list A) : IZR (py_len (x :: l)) <> 0.
Proof.
  unfold py_len. apply not_0_IZR. cbn [length]. lia.
Qed.

Lemma average_return_run (x : R) (l : list R) (w : world) :
  average_return (x :: l) w = (Ok (avg_return_of (x :: l)), w).
Proof. apply py_div_ok, py_len_nonzero. Qed.

Lemma range_volatility_run (x : R) (l : list R) (w : world) :
  range_volatility (x :: l) w = (Ok (volatility_of (x :: l)), w).
Proof.
  unfold range_volatility. cbn [py_max py_min].
  rewrite (bind_ok _ _ w w (max_from x l)) by reflexivity.
  rewrite (bind_ok _ _ w w (min_from x l)) by reflexivity.
  apply py_div_ok. lra.
Qed.

Lemma latest_row_none (rows : list row) :
  latest_row rows = None -> rows = [].
Proof.
  unfold latest_row. destruct (rev rows) as [| r rs] eqn:E; intros Hnone.
  - apply (f_equal (@rev row)) in E. now rewrite rev_involutive in E.
  - exfalso. assert (Hin : In r rows) by (apply in_rev; rewrite E; now left).
    pose proof (find_none _ _ Hnone r Hin) as Hr. cbn in Hr.
    now rewrite String.eqb_refl in Hr.
Qed.

Lemma latest_row_some (rows : list row) :
  rows <> [] -> exists r : row, latest_row rows = Some r /\ In r rows.
Proof.
  intros Hne. destruct (latest_row rows) as [r |] eqn:E.
  - exists r. split; [reflexivity |].
    unfold latest_row in E. destruct (rev rows); [discriminate |].
    now apply find_some in E.
  - now apply latest_row_none in E.
Qed.

Lemma last_close_run (db : database) (symbol : string) (w : world) :
  db symbol <> [] ->
  last_close db symbol w = (Ok (latest_close (db symbol)), w).
Proof.
  intros Hne. unfold last_close, latest_close.
  now destruct (latest_row_some _ Hne) as [r [-> _]].
Qed.

Lemma returns_of_length (rows : list row) :
  length (returns_of rows) = (length rows - 1)%nat.
Proof.
  unfold returns_of. rewrite length_map, py_range_length. unfold py_len. lia.
Qed.

(** With at least two rows and no zero close, [monte_carlo_simulation]
    returns the ensemble simulated from the latest close with the
    statistics of the returns. *)
Lemma monte_carlo_simulation_run (db : database) (deviate : nat -> R)
    (symbol : string) (days simulations : Z) (w : world) :
  (2 <= length (db symbol))%nat ->
  Forall (fun r => close_price r <> 0) (db symbol) ->
  monte_carlo_simulation db deviate symbol days simulations w
  = (Ok (Some (ensemble deviate (latest_close (db symbol))
                 (avg_return_of (returns_of (db symbol)))
                 (volatility_of (returns_of (db symbol)))
                 (Z.to_nat days) (Z.to_nat simulations) (draws w))),
     advance w (Z.to_nat simulations * Z.to_nat days)).
Proof.
  intros Hlen Hnz. unfold monte_carlo_simulation.
  step (get_daily_returns_run db symbol w Hlen Hnz).
  fold (returns_of (db symbol)).
  pose proof (returns_of_length (db symbol)) as Hr.
  destruct (returns_of (db symbol)) as [| x l]; [cbn in Hr; lia |].
  step (average_return_run x l w).
  step (range_volatility_run x l w).
  rewrite (bind_ok _ _ w w (latest_close (db symbol))).
  - now step (simulate_run deviate (latest_close (db symbol))
                (avg_return_of (x :: l)) (volatility_of (x :: l))
                days simulations w).
  - apply last_close_run. intros E. rewrite E in Hlen. cbn in Hlen. lia.
Qed.

(** With fewer than two rows [monte_carlo_simulation] returns [None] as
    well, before anything is drawn. *)
Lemma monte_carlo_simulation_short_history (db : database)
    (deviate : nat -> R) (symbol : string) (days simulations : Z)
    (w : world) :
  (length (db symbol) < 2)%nat ->
  monte_carlo_simulation db deviate symbol days simulations w
  = (Ok None,
     mkWorld (stdout w ++ ["Not enough data for simulation."%string])
             (draws w) (heap w)).
Proof.
  intros Hlen. unfold monte_carlo_simulation, bind.
  unfold get_daily_returns.
  destruct (py_len (db symbol) <? 2)%Z eqn:E.
  - reflexivity.
  - apply Z.ltb_ge in E. unfold py_len in E. lia.
Qed.

(** C6 as stated fails: with [days = 0] the call does not fail; it returns
    one single-element path per simulation. *)
Lemma monte_carlo_simulation_zero_days_no_failure :
  monte_carlo_simulation two_records (fun _ => 0) "AAPL" 0 2 world0
  = (Ok (Some [[110]; [110]]), world0)
  /\ fst (monte_carlo_simulation two_records (fun _ => 0) "AAPL" 0 2 world0)
     <> Raise InvalidParameterError.
Proof.
  assert (E : monte_carlo_simulation two_records (fun _ => 0) "AAPL" 0 2 world0
              = (Ok (Some [[110]; [110]]), world0)).
  { rewrite monte_carlo_simulation_run.
    - reflexivity.
    - cbn. lia.
    - repeat constructor; cbn; lra. }
  split; [exact E |]. rewrite E. discriminate.
Qed.

Lemma walk_ext (d1 d2 : nat -> R) (avg vol : R) (n : nat) :
  forall (k : nat) (price : R),
    (forall j : nat, (k <= j < k + n)%nat -> d1 j = d2 j) ->
    walk d1 avg vol n k price = walk d2 avg vol n k price.
Proof.
  induction n as [| n IH]; intros k price Hd; [reflexivity |].
  cbn [walk]. rewrite (Hd k) by lia. f_equal.
  apply IH. intros j Hj. apply Hd. lia.
Qed.

Lemma ensemble_ext (d1 d2 : nat -> R) (start avg vol : R) (n m k : nat) :
  (forall j : nat, (k <= j < k + m * n)%nat -> d1 j = d2 j) ->
  ensemble d1 start avg vol n m k = ensemble d2 start avg vol n m k.
Proof.
  intros Hd. unfold ensemble. apply map_ext_in. intros i Hi.
  apply in_seq in Hi. f_equal. apply walk_ext. intros j Hj. apply Hd. nia.
Qed.

Lemma walk_flat (deviate : nat -> R) (n : nat) :
  forall (k : nat) (price : R), walk deviate 0 0 n k price = repeat price n.
Proof.
  induction n as [| n IH]; intros k price; [reflexivity |].
  cbn [walk repeat].
  replace (price * (1 + (0 + deviate k * 0))) with price by ring.
  now rewrite IH.
Qed.

Lemma ensemble_flat (deviate : nat -> R) (start : R) (n m k : nat) :
  ensemble deviate start 0 0 n m k = repeat (repeat start (S n)) m.
Proof.
  revert k. induction m as [| m IH]; intros k; [reflexivity |].
  now rewrite ensemble_S, walk_flat, IH.
Qed.



Lemma ensemble_no_steps (deviate : nat -> R) (start avg vol : R) (m k : nat) :
  ensemble deviate start avg vol 0 m k = repeat [start] m.
Proof.
  revert k. induction m as [| m IH]; intros k; [reflexivity |].
  now rewrite ensemble_S, IH.
Qed.

(** C6, amended: [simulate] validates nothing and never fails.  For every
    start price, [days] and [simulations] it returns [max(simulations, 0)]
    paths that start at the start price, after [max(simulations, 0) *
    max(days, 0)] draws; with [days <= 0] every path is just the start
    price, with [simulations <= 0] the ensemble is empty, and in both
    cases the world, the generator included, is left as it was. *)
Theorem simulate_total (deviate : nat -> R) (start avg vol : R)
    (days simulations : Z) (w : world) :
  exists paths : list (list R),
    simulate deviate start avg vol days simulations w
    = (Ok paths, advance w (Z.to_nat simulations * Z.to_nat days))
    /\ length paths = Z.to_nat simulations
    /\ Forall (fun path => nth_error path 0 = Some start) paths
    /\ ((days <= 0)%Z ->
        paths = repeat [start] (Z.to_nat simulations)
        /\ advance w (Z.to_nat simulations * Z.to_nat days) = w)
    /\ ((simulations <= 0)%Z ->
        paths = []
        /\ advance w (Z.to_nat simulations * Z.to_nat days) = w).
Proof.
  eexists. split; [apply simulate_run |].
  split; [apply ensemble_length |].
  split; [| split].
  - apply Forall_forall. intros path Hin.
    apply ensemble_In in Hin. now destruct Hin as [j [_ ->]].
  - intros Hd. replace (Z.to_nat days) with 0%nat by lia.
    rewrite ensemble_no_steps, Nat.mul_0_r, advance_0. now split.
  - intros Hs. replace (Z.to_nat simulations) with 0%nat by lia.
    cbn [Nat.mul]. rewrite advance_0. now split.
Qed.

Lemma simulate_total_witness :
  simulate (fun _ => 1) (-5) (1 / 100) (2 / 100) 0 2 world0
  = (Ok [[-5]; [-5]], world0).
Proof.
  destruct (simulate_total (fun _ => 1) (-5) (1 / 100) (2 / 100) 0 2 world0)
    as [paths [Hrun [_ [_ [Hdays _]]]]].
  destruct (Hdays ltac:(lia)) as [Hpaths Hworld].
  rewrite Hrun, Hpaths, Hworld. reflexivity.
Defined.

Lemma walk_positive (deviate : nat -> R) (avg vol : R) (n : nat) :
  forall (k : nat) (price : R),
    0 < price ->
    (forall j : nat, (k <= j < k + n)%nat -> -1 < avg + deviate j * vol) ->
    Forall (fun p => 0 < p) (walk deviate avg vol n k price).
Proof.
  induction n as [| n IH]; intros k price Hp Hd; cbn [walk].
  - constructor.
  - assert (Hk : -1 < avg + deviate k * vol) by (apply Hd; lia).
    assert (Hp' : 0 < price * (1 + (avg + deviate k * vol)))
      by (apply Rmult_lt_0_compat; lra).
    constructor; [exact Hp' |].
    apply IH; [exact Hp' |]. intros j Hj. apply Hd. lia.
Qed.

(** C9 as stated fails: on a history that doubles and halves again the
    statistics are [avg_return = 1/4] and [volatility = 3/4]; a deviate of
    [-3] gives the factor [-2], and the positive start price 100 is
    followed by the price -100. *)
Lemma monte_carlo_simulation_negative_price :
  0 < latest_close (spike "AAPL"%string)
  /\ monte_carlo_simulation spike (fun _ => -3) "AAPL" 1 1 world0
     = (Ok (Some [[100; -100]]), mkWorld [] 1 [])
  /\ ~ Forall (Forall (fun p => 0 < p)) [[100; -100]].
Proof.
  split; [cbn; lra |]. split.
  - rewrite monte_carlo_simulation_run;
      [| cbn; lia | repeat constructor; cbn; lra].
    assert (Er : returns_of (spike "AAPL"%string)
                 = [(200 - 100) / 100; (100 - 200) / 200]) by reflexivity.
    rewrite Er.
    assert (Ea : avg_return_of [(200 - 100) / 100; (100 - 200) / 200] = 1 / 4).
    { unfold avg_return_of, py_sum, py_len. cbn. lra. }
    assert (Ev : volatility_of [(200 - 100) / 100; (100 - 200) / 200] = 3 / 4).
    { unfold volatility_of, max_from, min_from. cbn [fold_left].
      destruct (Rgt_dec ((100 - 200) / 200) ((200 - 100) / 100)); [lra |].
      destruct (Rlt_dec ((100 - 200) / 200) ((200 - 100) / 100)); lra. }
    rewrite Ea, Ev. change (Z.to_nat 1) with 1%nat.
    change (latest_close (spike "AAPL"%string)) with 100.
    unfold ensemble. cbn [seq map walk Nat.mul Nat.add draws world0].
    replace (100 * (1 + (1 / 4 + -3 * (3 / 4)))) with (-100) by lra.
    reflexivity.
  - intros H. inversion H as [| ? ? Hp _]; subst.
    inversion Hp as [| ? ? _ Hq]; subst.
    inversion Hq as [| ? ? Hneg _]; subst. lra.
Qed.

(** C9, amended: from a positive start price, every element of every path
    of the ensemble is positive provided every random factor drawn during
    the run is greater than -1. *)
Theorem simulate_positive (deviate : nat -> R) (start avg vol : R)
    (days simulations : Z) (w : world) :
  0 < start ->
  (forall j : nat,
     (draws w <= j < draws w + Z.to_nat simulations * Z.to_nat days)%nat ->
     -1 < avg + deviate j * vol) ->
  exists (paths : list (list R)) (w' : world),
    simulate deviate start avg vol days simulations w = (Ok paths, w')
    /\ length paths = Z.to_nat simulations
    /\ Forall (Forall (fun p => 0 < p)) paths.
Proof.
  intros Hs Hd. eexists. eexists. split; [apply simulate_run |].
  split; [apply ensemble_length |].
  apply Forall_forall. intros path Hin.
  apply ensemble_In in Hin. destruct Hin as [i [Hi ->]].
  constructor; [exact Hs |].
  apply walk_positive; [exact Hs |]. intros j Hj. apply Hd. nia.
Qed.

Lemma simulate_positive_witness :
  exists (paths : list (list R)) (w' : world),
    simulate (fun _ => -3) 100 (1 / 100) (2 / 100) 30 1000 world0
    = (Ok paths, w')
    /\ length paths = 1000%nat
    /\ Forall (Forall (fun p => 0 < p)) paths.
Proof.
  apply (simulate_positive (fun _ => -3) 100 (1 / 100) (2 / 100) 30 1000
           world0).
  - lra.
  - intros j _. lra.
Defined.

(** ** The statistics of the returns *)

Lemma max_from_bounds (l : list R) :
  forall x : R,
    x <= max_from x l
    /\ (forall y : R, In y l -> y <= max_from x l)
    /\ In (max_from x l) (x :: l).
Proof.
  induction l as [| y l IH]; intros x.
  - cbn. repeat split; [lra | tauto | now left].
  - unfold max_from. cbn [fold_left].
    fold (max_from (if Rgt_dec y x then y else x) l).
    destruct (IH (if Rgt_dec y x then y else x)) as [H1 [H2 H3]].
    destruct (Rgt_dec y x) as [Hgt | Hle].
    + repeat split.
      * lra.
      * intros z [<- | Hz]; [exact H1 | now apply H2].
      * right. exact H3.
    + repeat split.
      * exact H1.
      * intros z [<- | Hz]; [lra | now apply H2].
      * destruct H3 as [<- | H3]; [now left | right; now right].
Qed.

Lemma min_from_bounds (l : list R) :
  forall x : R,
    min_from x l <= x
    /\ (forall y : R, In y l -> min_from x l <= y)
    /\ In (min_from x l) (x :: l).
Proof.
  induction l as [| y l IH]; intros x.
  - cbn. repeat split; [lra | tauto | now left].
  - unfold min_from. cbn [fold_left].
    fold (min_from (if Rlt_dec y x then y else x) l).
    destruct (IH (if Rlt_dec y x then y else x)) as [H1 [H2 H3]].
    destruct (Rlt_dec y x) as [Hlt | Hge].
    + repeat split.
      * lra.
      * intros z [<- | Hz]; [exact H1 | now apply H2].
      * right. exact H3.
    + repeat split.
      * exact H1.
      * intros z [<- | Hz]; [lra | now apply H2].
      * destruct H3 as [<- | H3]; [now left | right; now right].
Qed.

(** C4: on a non-empty return series the dispersion computed for the
    simulator is [(max(returns) - min(returns)) / 2], where [max(returns)]
    and [min(returns)] are the greatest and the least element of the
    series; it is never negative, and it is 0 exactly when the maximum
    equals the minimum. *)
Theorem range_volatility_half_range (returns : list R) (w : world) :
  returns <> [] ->
  exists hi lo dispersion : R,
    py_max returns w = (Ok hi, w)
    /\ py_min returns w = (Ok lo, w)
    /\ range_volatility returns w = (Ok dispersion, w)
    /\ (In hi returns /\ forall x : R, In x returns -> x <= hi)
    /\ (In lo returns /\ forall x : R, In x returns -> lo <= x)
    /\ dispersion = (hi - lo) / 2
    /\ 0 <= dispersion
    /\ (dispersion = 0 <-> hi = lo).
Proof.
  intros Hne. destruct returns as [| x l]; [now elim Hne |].
  destruct (max_from_bounds l x) as [Hx1 [Hx2 Hx3]].
  destruct (min_from_bounds l x) as [Hn1 [Hn2 Hn3]].
  exists (max_from x l), (min_from x l), ((max_from x l - min_from x l) / 2).
  split; [reflexivity |]. split; [reflexivity |].
  split; [apply range_volatility_run |].
  split; [split; [exact Hx3 | intros z [<- | Hz]; [exact Hx1 | now apply Hx2]] |].
  split; [split; [exact Hn3 | intros z [<- | Hz]; [exact Hn1 | now apply Hn2]] |].
  split; [reflexivity |].
  split; [lra |]. split; intros H; lra.
Qed.

Lemma range_volatility_half_range_witness :
  exists hi lo dispersion : R,
    py_max [1; -1 / 2] world0 = (Ok hi, world0)
    /\ py_min [1; -1 / 2] world0 = (Ok lo, world0)
    /\ range_volatility [1; -1 / 2] world0 = (Ok dispersion, world0)
    /\ (In hi [1; -1 / 2] /\ forall x : R, In x [1; -1 / 2] -> x <= hi)
    /\ (In lo [1; -1 / 2] /\ forall x : R, In x [1; -1 / 2] -> lo <= x)
    /\ dispersion = (hi - lo) / 2
    /\ 0 <= dispersion
    /\ (dispersion = 0 <-> hi = lo).
Proof.
  apply (range_volatility_half_range [1; -1 / 2] world0). discriminate.
Defined.

(** ** [sorted] *)

Lemma insert_sorted_perm (x : R) (l : list R) :
  Permutation (insert_sorted x l) (x :: l).
Proof.
  induction l as [| y l IH]; cbn [insert_sorted].
  - apply Permutation_refl.
  - destruct (Rlt_dec x y).
    + apply Permutation_refl.
    + eapply perm_trans; [apply perm_skip, IH | apply perm_swap].
Qed.

Lemma insert_sorted_HdRel (x y : R) (l : list R) :
  y <= x -> HdRel Rle y l -> HdRel Rle y (insert_sorted x l).
Proof.
  intros Hyx Hl. destruct l as [| z l]; cbn [insert_sorted].
  - now constructor.
  - destruct (Rlt_dec x z); constructor.
    + exact Hyx.
    + now inversion Hl.
Qed.

Lemma insert_sorted_sorted (x : R) (l : list R) :
  Sorted Rle l -> Sorted Rle (insert_sorted x l).
Proof.
  induction l as [| y l IH]; intros Hs; cbn [insert_sorted].
  - repeat constructor.
  - inversion Hs as [| ? ? Hl Hy]; subst.
    destruct (Rlt_dec x y) as [Hlt | Hge].
    + constructor; [exact Hs |]. constructor. lra.
    + constructor; [now apply IH |].
      apply insert_sorted_HdRel; [lra | exact Hy].
Qed.

Lemma sort_loop_spec (l : list R) :
  forall acc : list R,
    Sorted Rle acc ->
    Sorted Rle (fold_left (fun acc x => insert_sorted x acc) l acc)
    /\ Permutation (fold_left (fun acc x => insert_sorted x acc) l acc)
                   (acc ++ l).
Proof.
  induction l as [| x l IH]; intros acc Hacc; cbn [fold_left].
  - rewrite app_nil_r. split; [exact Hacc | apply Permutation_refl].
  - destruct (IH (insert_sorted x acc) (insert_sorted_sorted x acc Hacc))
      as [Hs Hp].
    split; [exact Hs |].
    eapply perm_trans; [exact Hp |].
    eapply perm_trans;
      [apply Permutation_app_tail, insert_sorted_perm |].
    cbn [app]. apply Permutation_middle.
Qed.

Lemma sort_floats_sorted (l : list R) : Sorted Rle (sort_floats l).
Proof. apply (sort_loop_spec l []). constructor. Qed.

Lemma sort_floats_perm (l : list R) : Permutation (sort_floats l) l.
Proof. apply (sort_loop_spec l []). constructor. Qed.

Lemma sort_floats_length (l : list R) : length (sort_floats l) = length l.
Proof. apply Permutation_length, sort_floats_perm. Qed.

(** Deciding the comparisons of a run on concrete numbers. *)
Ltac decide_comparisons :=
  repeat match goal with
         | |- context [Rlt_dec ?a ?b] =>
             destruct (Rlt_dec a b); [try lra | try lra];
             cbn [insert_sorted fold_left]
         end.

Example sort_floats_example :
  sort_floats [110; 90; 105; 95; 100] = [90; 95; 100; 105; 110].
Proof.
  unfold sort_floats. cbn [fold_left insert_sorted].
  decide_comparisons. reflexivity.
Qed.

(** A list of reals has one sorted arrangement. *)
Lemma sorted_perm_unique (s1 : list R) :
  forall s2 : list R,
    Sorted Rle s1 -> Sorted Rle s2 -> Permutation s1 s2 -> s1 = s2.
Proof.
  induction s1 as [| a s1 IH]; intros s2 H1 H2 Hp.
  - now apply Permutation_nil in Hp.
  - destruct s2 as [| b s2];
      [apply Permutation_sym, Permutation_nil in Hp; discriminate |].
    apply Sorted_StronglySorted in H1; [| exact Rle_trans].
    apply Sorted_StronglySorted in H2; [| exact Rle_trans].
    inversion H1 as [| ? ? Hs1 Ha]; subst.
    inversion H2 as [| ? ? Hs2 Hb]; subst.
    rewrite Forall_forall in Ha, Hb.
    assert (Hab : a = b).
    { assert (Hin_a : In a (b :: s2))
        by (eapply Permutation_in; [exact Hp | now left]).
      assert (Hin_b : In b (a :: s1))
        by (eapply Permutation_in; [apply Permutation_sym, Hp | now left]).
      destruct Hin_a as [E | Hin_a]; [now symmetry |].
      destruct Hin_b as [E | Hin_b]; [exact E |].
      apply Rle_antisym; [now apply Ha | now apply Hb]. }
    subst b. f_equal.
    apply IH.
    + now apply StronglySorted_Sorted.
    + now apply StronglySorted_Sorted.
    + eapply Permutation_cons_inv. exact Hp.
Qed.

(** ** The index of the value at risk *)

Lemma int_five_percent (n : nat) :
  py_int (5 / 100 * IZR (Z.of_nat n)) = (Z.of_nat n / 20)%Z.
Proof.
  set (N := Z.of_nat n).
  assert (HN : (0 <= N)%Z) by (unfold N; lia).
  pose proof (Z.div_mod N 20 ltac:(lia)) as Hdm.
  pose proof (Z.mod_pos_bound N 20 ltac:(lia)) as [Hr0 Hr1].
  assert (E : IZR N = 20 * IZR (N / 20) + IZR (N mod 20)).
  { rewrite Hdm at 1. rewrite plus_IZR, mult_IZR. reflexivity. }
  apply IZR_le in Hr0. apply IZR_lt in Hr1.
  unfold py_int. destruct (Rlt_dec (5 / 100 * IZR N) 0) as [Hneg | _].
  - apply IZR_le in HN. lra.
  - symmetry. apply Int_part_spec. rewrite E. lra.
Qed.

Lemma floor_index_div (n : nat) : floor_index n = (n / 20)%nat.
Proof.
  unfold floor_index. rewrite INR_IZR_INZ.
  pose proof (int_five_percent n) as H. unfold py_int in H.
  destruct (Rlt_dec (5 / 100 * IZR (Z.of_nat n)) 0) as [Hneg | _].
  - assert (0 <= IZR (Z.of_nat n)) by (apply IZR_le; lia). lra.
  - rewrite H. change 20%Z with (Z.of_nat 20).
    rewrite <- Nat2Z.inj_div. apply Nat2Z.id.
Qed.

(** ** Sums *)

Lemma fold_left_Rplus (l : list R) :
  forall a : R, fold_left Rplus l a = a + total l.
Proof.
  unfold total.
  induction l as [| x l IH]; intros a; cbn [fold_left fold_right].
  - lra.
  - rewrite IH. lra.
Qed.

Lemma py_sum_total (l : list R) : py_sum l = total l.
Proof. unfold py_sum. rewrite fold_left_Rplus. lra. Qed.

Lemma total_squares_nonneg (m : R) (l : list R) :
  0 <= total (map (fun x => (x - m) ^ 2) l).
Proof.
  induction l as [| x l IH]; cbn [map total fold_right].
  - lra.
  - fold (total (map (fun x => (x - m) ^ 2) l)).
    pose proof (pow2_ge_0 (x - m)). lra.
Qed.

Lemma py_len_INR {A} (l : list A) : IZR (py_len l) = INR (length l).
Proof. unfold py_len. now rewrite INR_IZR_INZ. Qed.

(** ** [compute_risk_metrics] *)

Lemma deref_new_object (w : world) (l : list R) :
  deref (length (heap w)) (with_object w l) = (Ok l, with_object w l).
Proof.
  unfold deref, with_object. cbn [heap].
  now rewrite app_nth2, Nat.sub_diag by lia.
Qed.

Lemma deref_old_object (w : world) (r : ref) (l new : list R) :
  nth_error (heap w) r = Some l ->
  deref r (with_object w new) = (Ok l, with_object w new).
Proof.
  intros H. unfold deref, with_object. cbn [heap].
  rewrite app_nth1 by (apply nth_error_Some; congruence).
  now rewrite (nth_error_nth _ _ _ H).
Qed.

Lemma py_sorted_run (w : world) (r : ref) (l : list R) :
  nth_error (heap w) r = Some l ->
  py_sorted r w = (Ok (length (heap w)), with_object w (sort_floats l)).
Proof.
  intros H. unfold py_sorted, bind, deref, alloc, with_object.
  now rewrite (nth_error_nth _ _ _ H).
Qed.

Lemma math_sqrt_ok (x : R) (w : world) :
  0 <= x -> math_sqrt x w = (Ok (sqrt x), w).
Proof.
  intros Hx. unfold math_sqrt. destruct (Rlt_dec x 0); [lra | reflexivity].
Qed.

(** On a non-empty list object [compute_risk_metrics] returns the element
    at index [len / 20] of the sorted copy, the mean, and the Sharpe
    ratio; the only change to the world is the sorted copy, a new
    object. *)
Lemma compute_risk_metrics_run (w : world) (final_prices : ref)
    (prices : list R) (risk_free_rate : R) :
  nth_error (heap w) final_prices = Some prices ->
  prices <> [] ->
  compute_risk_metrics final_prices risk_free_rate w
  = (Ok (nth (length prices / 20) (sort_floats prices) 0,
         mean prices,
         if Req_dec_T (pstdev prices) 0 then 0
         else (mean prices - risk_free_rate) / pstdev prices),
     with_object w (sort_floats prices)).
Proof.
  intros Hobj Hne. unfold compute_risk_metrics.
  set (w1 := with_object w (sort_floats prices)).
  assert (Hlen : (0 < length prices)%nat)
    by (destruct prices; [now elim Hne | cbn; lia]).
  assert (Hn : IZR (py_len prices) <> 0)
    by (unfold py_len; apply not_0_IZR; lia).
  step (py_sorted_run w final_prices prices Hobj).
  step (deref_new_object w (sort_floats prices)).
  fold w1. unfold py_len at 1. rewrite int_five_percent, sort_floats_length.
  rewrite (bind_ok _ _ w1 w1 (nth (length prices / 20) (sort_floats prices) 0)).
  2:{ rewrite (py_getitem_ok _ _ 0).
      - now rewrite <- (Nat2Z.inj_div _ 20), Nat2Z.id.
      - unfold py_len. rewrite sort_floats_length. split.
        + apply Z.div_pos; lia.
        + apply Z.div_lt; lia. }
  step (deref_old_object w _ _ (sort_floats prices) Hobj).
  fold w1.
  rewrite (bind_ok _ _ w1 w1 (mean prices)).
  2:{ rewrite py_div_ok by exact Hn.
      unfold mean. now rewrite py_sum_total, py_len_INR. }
  step (deref_old_object w _ _ (sort_floats prices) Hobj).
  fold w1.
  set (ms := total (map (fun x => (x - mean prices) ^ 2) prices)
             / INR (length prices)).
  rewrite (bind_ok _ _ w1 w1 ms).
  2:{ rewrite py_div_ok by exact Hn.
      unfold ms. now rewrite py_sum_total, py_len_INR. }
  assert (Hms : 0 <= ms).
  { unfold ms. apply Rmult_le_pos; [apply total_squares_nonneg |].
    apply Rlt_le, Rinv_0_lt_compat, lt_0_INR, Hlen. }
  step (math_sqrt_ok ms w1 Hms).
  change (sqrt ms) with (pstdev prices).
  destruct (Req_dec_T (pstdev prices) 0) as [Hz | Hnz].
  - reflexivity.
  - now step (py_div_ok (mean prices - risk_free_rate) _ w1 Hnz).
Qed.

Lemma total_constant (c : R) (l : list R) :
  Forall (fun x => x = c) l -> total l = INR (length l) * c.
Proof.
  unfold total. induction 1 as [| x l Hx Hl IH].
  - cbn. lra.
  - cbn [fold_right length]. rewrite IH, S_INR, Hx. lra.
Qed.

Lemma total_zero (l : list R) :
  Forall (fun x => x = 0) l -> total l = 0.
Proof. intros H. rewrite (total_constant 0 l H). lra. Qed.

Lemma mean_example : mean example_prices = 100.
Proof. unfold mean, total, example_prices. cbn. lra. Qed.

Lemma pstdev_example : pstdev example_prices = sqrt 50.
Proof.
  unfold pstdev. rewrite mean_example. f_equal.
  unfold total, example_prices. cbn. lra.
Qed.

Lemma example_prices_sorted : Sorted Rle example_prices.
Proof. unfold example_prices. repeat constructor; lra. Qed.


(** On binary64 numbers, whatever the prices: what the call returns is
    the computed mean and the Sharpe ratio of the computed volatility, 0
    exactly when that volatility compares equal to zero. *)
Lemma binary64_result_parts (prices : list PrimFloat.float)
    (risk_free_rate var_95 expected_return sharpe_ratio : PrimFloat.float) :
  Binary64.compute_risk_metrics prices risk_free_rate
  = Ok (var_95, expected_return, sharpe_ratio) ->
  Binary64.mean_of prices = Ok expected_return
  /\ exists volatility : PrimFloat.float,
       Binary64.volatility_of prices expected_return = Ok volatility
       /\ sharpe_ratio
          = Binary64.sharpe_of expected_return risk_free_rate volatility.
Proof.
  unfold Binary64.compute_risk_metrics, Binary64.mean_of,
    Binary64.volatility_of, Binary64.sharpe_of, Binary64.and_then.
  intros H.
  destruct (Binary64.py_int _) as [i |]; [| discriminate].
  destruct (Binary64.py_getitem _ i) as [v |]; [| discriminate].
  destruct (Binary64.py_div (Binary64.py_sum prices) _) as [e |] eqn:Ee;
    [| discriminate].
  destruct (Binary64.sum_squares e prices _) as [sq |] eqn:Esq;
    [| discriminate].
  destruct (Binary64.py_div sq _) as [ms |] eqn:Ems; [| discriminate].
  destruct (Binary64.math_sqrt ms) as [vol |] eqn:Evol; [| discriminate].
  unfold Binary64.py_div in H.
  destruct (PrimFloat.eqb vol _) eqn:Ez; injection H as <- <- <-;
    (split; [reflexivity |]); exists vol; rewrite Esq, Ems, Evol, Ez;
    split; reflexivity.
Qed.

Lemma safe_magnitude_example (x : R) :
  Rabs x <= 1000 -> Rabs x <= safe_magnitude.
Proof.
  intros Hx. apply Rle_trans with 1000; [exact Hx |].
  unfold safe_magnitude. replace 1000 with (10 ^ 3) by (simpl; lra).
  apply Rle_pow; [lra | lia].
Qed.



(** ** The empty list of terminal prices *)

Lemma compute_risk_metrics_empty_run (w : world) (final_prices : ref)
    (risk_free_rate : R) :
  nth_error (heap w) final_prices = Some [] ->
  compute_risk_metrics final_prices risk_free_rate w
  = (Raise IndexError, with_object w []).
Proof.
  intros Hobj. unfold compute_risk_metrics.
  step (py_sorted_run w final_prices [] Hobj).
  change (sort_floats []) with (@nil R).
  step (deref_new_object w []).
  apply bind_raise, py_getitem_empty.
Qed.

(** C7 as stated fails: on the empty list the exception raised is
    [IndexError], from the subscript of the empty sorted copy. *)
Lemma compute_risk_metrics_empty_IndexError :
  compute_risk_metrics 0%nat (1 / 100) empty_prices_world
  = (Raise IndexError, mkWorld [] 0 [[]; []])
  /\ fst (compute_risk_metrics 0%nat (1 / 100) empty_prices_world)
     <> Raise InvalidParameterError.
Proof.
  assert (E : compute_risk_metrics 0%nat (1 / 100) empty_prices_world
              = (Raise IndexError, mkWorld [] 0 [[]; []]))
    by (now rewrite compute_risk_metrics_empty_run).
  split; [exact E |]. rewrite E. discriminate.
Qed.

(** C7, amended: on the empty list of terminal prices
    [compute_risk_metrics] fails with [IndexError], which reaches the
    caller; nothing is printed, no randomness is consumed and every list
    object that existed before the call is unchanged. *)
Theorem compute_risk_metrics_empty (w : world) (final_prices : ref)
    (risk_free_rate : R) :
  nth_error (heap w) final_prices = Some [] ->
  exists w' : world,
    compute_risk_metrics final_prices risk_free_rate w
    = (Raise IndexError, w')
    /\ stdout w' = stdout w
    /\ draws w' = draws w
    /\ (forall (r : ref) (l : list R),
          nth_error (heap w) r = Some l -> nth_error (heap w') r = Some l).
Proof.
  intros Hobj. exists (with_object w []).
  split; [now apply compute_risk_metrics_empty_run |].
  split; [reflexivity |]. split; [reflexivity |].
  intros r l Hr. cbn [with_object heap].
  rewrite nth_error_app1; [exact Hr |].
  apply nth_error_Some. congruence.
Qed.

Lemma compute_risk_metrics_empty_witness :
  exists w' : world,
    compute_risk_metrics 0%nat (1 / 100) empty_prices_world
    = (Raise IndexError, w')
    /\ stdout w' = []
    /\ draws w' = 0%nat
    /\ (forall (r : ref) (l : list R),
          nth_error [[]] r = Some l -> nth_error (heap w') r = Some l).
Proof.
  apply (compute_risk_metrics_empty empty_prices_world 0%nat (1 / 100)).
  reflexivity.
Defined.

(** C10: [compute_risk_metrics] leaves the caller's list of terminal
    prices as it was: the list is sorted into a new object, and after the
    call the input object, like every other object that existed before,
    holds what it held; nothing is printed and no randomness is
    consumed. *)
Theorem compute_risk_metrics_keeps_input (w : world) (final_prices : ref)
    (prices : list R) (risk_free_rate : R) :
  nth_error (heap w) final_prices = Some prices ->
  prices <> [] ->
  exists (metrics : R * R * R) (w' : world),
    compute_risk_metrics final_prices risk_free_rate w = (Ok metrics, w')
    /\ nth_error (heap w') final_prices = Some prices
    /\ (forall (r : ref) (l : list R),
          nth_error (heap w) r = Some l -> nth_error (heap w') r = Some l)
    /\ stdout w' = stdout w
    /\ draws w' = draws w.
Proof.
  intros Hobj Hne. eexists. exists (with_object w (sort_floats prices)).
  split; [now apply compute_risk_metrics_run |].
  assert (Hframe : forall (r : ref) (l : list R),
             nth_error (heap w) r = Some l ->
             nth_error (heap (with_object w (sort_floats prices))) r = Some l).
  { intros r l Hr. cbn [with_object heap].
    rewrite nth_error_app1; [exact Hr |].
    apply nth_error_Some. congruence. }
  split; [now apply Hframe |].
  split; [exact Hframe |]. split; reflexivity.
Qed.

Lemma compute_risk_metrics_keeps_input_witness :
  exists (metrics : R * R * R) (w' : world),
    compute_risk_metrics 0%nat (1 / 100)
      (mkWorld [] 0 [[110; 90; 105; 95; 100]]) = (Ok metrics, w')
    /\ nth_error (heap w') 0 = Some [110; 90; 105; 95; 100].
Proof.
  destruct (compute_risk_metrics_keeps_input
              (mkWorld [] 0 [[110; 90; 105; 95; 100]]) 0%nat
              [110; 90; 105; 95; 100] (1 / 100))
    as [m [w' [Hrun [Hin _]]]].
  - reflexivity.
  - discriminate.
  - exists m, w'. split; assumption.
Defined.

(** * Further properties of the core *)

(** ** Failure of [get_daily_returns] *)

Lemma comprehension_raise {A B} (f : A -> M B) (g : A -> B) (e : exn)
    (xs : list A) (w : world) :
  (forall x, In x xs -> f x w = (Ok (g x), w) \/ f x w = (Raise e, w)) ->
  (exists x, In x xs /\ f x w = (Raise e, w)) ->
  comprehension f xs w = (Raise e, w).
Proof.
  induction xs as [| x xs IH]; intros Hall [y [Hy Hraise]].
  - destruct Hy.
  - cbn [comprehension].
    destruct (Hall x (or_introl eq_refl)) as [Hok | Hbad].
    + step Hok. apply bind_raise. apply IH.
      * intros z Hz. apply Hall. now right.
      * destruct Hy as [<- | Hy]; [congruence |]. now exists y.
    + now apply bind_raise.
Qed.

(** What one element of the comprehension of line 67 does. *)
Lemma return_body_run (rows : list row) (i : Z) (w : world) :
  (1 <= i < py_len rows)%Z ->
  let prev := close_price (nth (Z.to_nat (i - 1)) rows (mkRow "" 0)) in
  (cur <- py_getitem rows i ;;
   prev <- py_getitem rows (i - 1) ;;
   prev' <- py_getitem rows (i - 1) ;;
   py_div (close_price cur - close_price prev) (close_price prev')) w
  = if Req_dec_T prev 0 then (Raise ZeroDivisionError, w)
    else (Ok (return_at rows i), w).
Proof.
  intros Hi prev. set (d := mkRow "" 0).
  rewrite (bind_ok _ _ w w (nth (Z.to_nat i) rows d))
    by (apply py_getitem_ok; lia).
  rewrite (bind_ok _ _ w w (nth (Z.to_nat (i - 1)) rows d))
    by (apply py_getitem_ok; lia).
  rewrite (bind_ok _ _ w w (nth (Z.to_nat (i - 1)) rows d))
    by (apply py_getitem_ok; lia).
  unfold py_div, return_at. subst prev d. cbv zeta.
  now destruct (Req_dec_T _ 0).
Qed.

Lemma close_nth (rows : list row) (i : nat) (d : R) :
  (i < length rows)%nat ->
  nth i (map close_price rows) d = close_price (nth i rows (mkRow "" 0)).
Proof.
  intros Hi.
  rewrite (nth_indep _ d (close_price (mkRow "" 0)))
    by now rewrite length_map.
  apply map_nth.
Qed.

(** With at least two rows, only the closes before the last one are
    divisors. *)
Lemma get_daily_returns_run_divisors (db : database) (symbol : string)
    (w : world) :
  (2 <= length (db symbol))%nat ->
  (forall i : nat, (i < length (db symbol) - 1)%nat ->
     nth i (map close_price (db symbol)) 0 <> 0) ->
  get_daily_returns db symbol w = (Ok (Some (returns_of (db symbol))), w).
Proof.
  intros Hlen Hnz. unfold get_daily_returns.
  destruct (py_len (db symbol) <? 2)%Z eqn:E.
  - apply Z.ltb_lt in E. unfold py_len in E. lia.
  - erewrite bind_ok; [reflexivity |].
    apply comprehension_pure. intros i Hi. apply py_range_In in Hi.
    rewrite return_body_run by lia. cbv zeta.
    destruct (Req_dec_T _ 0) as [Ez | _]; [| reflexivity].
    exfalso. apply (Hnz (Z.to_nat (i - 1))).
    + unfold py_len in Hi. lia.
    + rewrite close_nth; [exact Ez | unfold py_len in Hi; lia].
Qed.

Lemma get_daily_returns_raise (db : database) (symbol : string)
    (w : world) :
  (2 <= length (db symbol))%nat ->
  (exists i : nat, (i < length (db symbol) - 1)%nat
                   /\ nth i (map close_price (db symbol)) 0 = 0) ->
  get_daily_returns db symbol w = (Raise ZeroDivisionError, w).
Proof.
  intros Hlen [j [Hj Hz]]. unfold get_daily_returns.
  destruct (py_len (db symbol) <? 2)%Z eqn:E.
  - apply Z.ltb_lt in E. unfold py_len in E. lia.
  - apply bind_raise.
    apply (comprehension_raise _ (return_at (db symbol))).
    + intros i Hi. apply py_range_In in Hi.
      rewrite return_body_run by lia. cbv zeta.
      destruct (Req_dec_T _ 0); [now right | now left].
    + exists (1 + Z.of_nat j)%Z. split.
      * unfold py_range. apply in_map_iff. exists j. split; [reflexivity |].
        apply in_seq. unfold py_len. lia.
      * rewrite return_body_run by (unfold py_len; lia). cbv zeta.
        replace (Z.to_nat (1 + Z.of_nat j - 1)) with j by lia.
        rewrite <- (close_nth _ _ 0) by lia.
        destruct (Req_dec_T _ 0); [reflexivity | contradiction].
Qed.

(** X1: with at least two rows, [get_daily_returns] raises
    [ZeroDivisionError] when a close other than the last one is zero, and
    otherwise returns the series; in both cases it prints nothing.  A zero
    in the last row is not a divisor. *)
Theorem get_daily_returns_zero_division (db : database) (symbol : string)
    (w : world) :
  (2 <= length (db symbol))%nat ->
  ((exists i : nat, (i < length (db symbol) - 1)%nat
                    /\ nth i (map close_price (db symbol)) 0 = 0) ->
   get_daily_returns db symbol w = (Raise ZeroDivisionError, w))
  /\ ((forall i : nat, (i < length (db symbol) - 1)%nat ->
         nth i (map close_price (db symbol)) 0 <> 0) ->
      exists returns : list R,
        get_daily_returns db symbol w = (Ok (Some returns), w)
        /\ length returns = (length (db symbol) - 1)%nat).
Proof.
  intros Hlen. split.
  - now apply get_daily_returns_raise.
  - intros Hnz. exists (returns_of (db symbol)). split.
    + now apply get_daily_returns_run_divisors.
    + apply returns_of_length.
Qed.

Lemma get_daily_returns_zero_division_witness :
  get_daily_returns zero_close "AAPL" world0
  = (Raise ZeroDivisionError, world0).
Proof.
  apply (get_daily_returns_zero_division zero_close "AAPL" world0).
  - cbn. lia.
  - exists 0%nat. split; [cbn; lia | reflexivity].
Defined.

(** ** Early exits of [monte_carlo_simulation] *)

(** X2: when a close other than the last one is zero,
    [monte_carlo_simulation] fails with [ZeroDivisionError] before anything
    is drawn or printed. *)
Theorem monte_carlo_simulation_zero_division (db : database)
    (deviate : nat -> R) (symbol : string) (days simulations : Z)
    (w : world) :
  (2 <= length (db symbol))%nat ->
  (exists i : nat, (i < length (db symbol) - 1)%nat
                   /\ nth i (map close_price (db symbol)) 0 = 0) ->
  monte_carlo_simulation db deviate symbol days simulations w
  = (Raise ZeroDivisionError, w).
Proof.
  intros Hlen Hz. unfold monte_carlo_simulation.
  apply bind_raise. now apply get_daily_returns_raise.
Qed.

Lemma monte_carlo_simulation_zero_division_witness :
  monte_carlo_simulation zero_close (fun _ => 0) "AAPL" 30 1000 world0
  = (Raise ZeroDivisionError, world0).
Proof.
  apply (monte_carlo_simulation_zero_division zero_close (fun _ => 0) "AAPL"
           30 1000 world0).
  - cbn. lia.
  - exists 0%nat. split; [cbn; lia | reflexivity].
Defined.

Lemma monte_carlo_simulation_run_divisors (db : database)
    (deviate : nat -> R) (symbol : string) (days simulations : Z)
    (w : world) :
  (2 <= length (db symbol))%nat ->
  (forall i : nat, (i < length (db symbol) - 1)%nat ->
     nth i (map close_price (db symbol)) 0 <> 0) ->
  monte_carlo_simulation db deviate symbol days simulations w
  = (Ok (Some (ensemble deviate (latest_close (db symbol))
                 (avg_return_of (returns_of (db symbol)))
                 (volatility_of (returns_of (db symbol)))
                 (Z.to_nat days) (Z.to_nat simulations) (draws w))),
     advance w (Z.to_nat simulations * Z.to_nat days)).
Proof.
  intros Hlen Hnz. unfold monte_carlo_simulation.
  step (get_daily_returns_run_divisors db symbol w Hlen Hnz).
  pose proof (returns_of_length (db symbol)) as Hr.
  destruct (returns_of (db symbol)) as [| x l]; [cbn in Hr; lia |].
  step (average_return_run x l w).
  step (range_volatility_run x l w).
  rewrite (bind_ok _ _ w w (latest_close (db symbol))).
  - now step (simulate_run deviate (latest_close (db symbol))
                (avg_return_of (x :: l)) (volatility_of (x :: l))
                days simulations w).
  - apply last_close_run. intros E. rewrite E in Hlen. cbn in Hlen. lia.
Qed.

(** ** A flat price history *)

Lemma returns_of_flat (rows : list row) (c : R) :
  c <> 0 ->
  Forall (fun r => close_price r = c) rows ->
  Forall (fun x => x = 0) (returns_of rows).
Proof.
  intros Hc Hflat. unfold returns_of. apply Forall_map, Forall_forall.
  intros i Hi. apply py_range_In in Hi. unfold py_len in Hi.
  rewrite Forall_forall in Hflat. unfold return_at. cbv zeta.
  rewrite (Hflat (nth (Z.to_nat i) rows (mkRow "" 0)))
    by (apply nth_In; lia).
  rewrite (Hflat (nth (Z.to_nat (i - 1)) rows (mkRow "" 0)))
    by (apply nth_In; lia).
  now field.
Qed.

Lemma avg_return_of_zeros (l : list R) :
  l <> [] -> Forall (fun x => x = 0) l -> avg_return_of l = 0.
Proof.
  intros Hne Hz. unfold avg_return_of.
  rewrite py_sum_total, (total_zero l Hz).
  unfold Rdiv. apply Rmult_0_l.
Qed.

Lemma volatility_of_zeros (l : list R) :
  Forall (fun x => x = 0) l -> volatility_of l = 0.
Proof.
  intros Hz. destruct l as [| x l]; [reflexivity |].
  cbn [volatility_of]. rewrite Forall_forall in Hz.
  destruct (max_from_bounds l x) as [_ [_ Hmax]].
  destruct (min_from_bounds l x) as [_ [_ Hmin]].
  rewrite (Hz _ Hmax), (Hz _ Hmin). lra.
Qed.

Lemma latest_close_flat (rows : list row) (c : R) :
  rows <> [] ->
  Forall (fun r => close_price r = c) rows ->
  latest_close rows = c.
Proof.
  intros Hne Hflat. unfold latest_close.
  destruct (latest_row_some rows Hne) as [r [-> Hin]].
  rewrite Forall_forall in Hflat. now apply Hflat.
Qed.

(** X3: on a history of at least two rows whose closes all equal the same
    nonzero price, [monte_carlo_simulation] returns, whatever the
    generator yields, one path per simulation that stays at that price for
    all [days + 1] elements: both statistics are zero. *)
Theorem monte_carlo_simulation_flat_history (db : database)
    (deviate : nat -> R) (symbol : string) (days simulations : Z)
    (w : world) (c : R) :
  (2 <= length (db symbol))%nat ->
  c <> 0 ->
  Forall (fun r => close_price r = c) (db symbol) ->
  monte_carlo_simulation db deviate symbol days simulations w
  = (Ok (Some (repeat (repeat c (S (Z.to_nat days)))
                 (Z.to_nat simulations))),
     advance w (Z.to_nat simulations * Z.to_nat days)).
Proof.
  intros Hlen Hc Hflat.
  assert (Hne : db symbol <> [])
    by (intros E; rewrite E in Hlen; cbn in Hlen; lia).
  assert (Hret : returns_of (db symbol) <> []).
  { intros E. pose proof (returns_of_length (db symbol)) as Hr.
    rewrite E in Hr. cbn in Hr. lia. }
  rewrite monte_carlo_simulation_run_divisors; [| exact Hlen |].
  - pose proof (returns_of_flat _ c Hc Hflat) as Hz.
    rewrite (avg_return_of_zeros _ Hret Hz), (volatility_of_zeros _ Hz).
    rewrite (latest_close_flat _ c Hne Hflat), ensemble_flat. reflexivity.
  - intros i Hi. rewrite close_nth by lia.
    rewrite Forall_forall in Hflat. rewrite Hflat; [exact Hc |].
    apply nth_In. lia.
Qed.

Lemma monte_carlo_simulation_flat_history_witness :
  monte_carlo_simulation
    (fun _ => [mkRow "2025-01-02" 50; mkRow "2025-01-03" 50])
    (fun j => INR j) "MSFT" 2 3 world0
  = (Ok (Some [[50; 50; 50]; [50; 50; 50]; [50; 50; 50]]),
     mkWorld [] 6 []).
Proof.
  apply (monte_carlo_simulation_flat_history
           (fun _ => [mkRow "2025-01-02" 50; mkRow "2025-01-03" 50])
           (fun j => INR j) "MSFT" 2 3 world0 50).
  - cbn. lia.
  - lra.
  - repeat constructor.
Defined.

(** ** How the paths are built *)

Lemma walk_nth_step (deviate : nat -> R) (avg vol : R) (n : nat) :
  forall (k : nat) (price : R) (i : nat),
    (i < n)%nat ->
    nth i (walk deviate avg vol n k price) 0
    = nth i (price :: walk deviate avg vol n k price) 0
      * (1 + (avg + deviate (k + i)%nat * vol)).
Proof.
  induction n as [| n IH]; intros k price i Hi; [lia |].
  cbn [walk]. destruct i as [| i].
  - cbn [nth]. now rewrite Nat.add_0_r.
  - change (nth (S i) (?a :: ?l) 0) with (nth i l 0).
    replace (k + S i)%nat with (S k + i)%nat by lia.
    apply IH. lia.
Qed.

(** X4: in the ensemble [simulate] returns, path [j] takes its draws in
    order from deviate number [draws + j * days] on: element [i + 1] of
    the path is element [i] times [1 + (avg + z * vol)], where [z] is
    deviate number [draws + j * days + i]. *)
Theorem simulate_step (deviate : nat -> R) (start avg vol : R)
    (days simulations : Z) (w : world) (j i : nat) :
  (j < Z.to_nat simulations)%nat ->
  (i < Z.to_nat days)%nat ->
  exists (paths : list (list R)) (w' : world),
    simulate deviate start avg vol days simulations w = (Ok paths, w')
    /\ nth (S i) (nth j paths []) 0
       = nth i (nth j paths []) 0
         * (1 + (avg + deviate (draws w + j * Z.to_nat days + i)%nat * vol)).
Proof.
  intros Hj Hi. eexists. eexists. split; [apply simulate_run |].
  unfold ensemble.
  set (f := fun j0 : nat =>
              start :: walk deviate avg vol (Z.to_nat days)
                         (draws w + j0 * Z.to_nat days) start).
  rewrite (nth_indep _ [] (f 0%nat)) by now rewrite length_map, length_seq.
  rewrite (map_nth f), seq_nth by exact Hj. unfold f. cbn [Nat.add].
  change (nth (S i) (start :: ?l) 0) with (nth i l 0).
  now apply walk_nth_step.
Qed.

Lemma simulate_step_witness :
  exists (paths : list (list R)) (w' : world),
    simulate (fun j => INR j) 100 (1 / 100) (2 / 100) 3 2 world0
    = (Ok paths, w')
    /\ nth 3 (nth 1 paths []) 0
       = nth 2 (nth 1 paths []) 0 * (1 + (1 / 100 + INR 5 * (2 / 100))).
Proof.
  apply (simulate_step (fun j => INR j) 100 (1 / 100) (2 / 100) 3 2 world0
           1 2); cbn; lia.
Defined.

Lemma walk_compound (deviate : nat -> R) (avg : R) (n : nat) :
  forall (k : nat) (price : R) (i : nat),
    (i < n)%nat ->
    nth i (walk deviate avg 0 n k price) 0 = price * (1 + avg) ^ S i.
Proof.
  induction n as [| n IH]; intros k price i Hi; [lia |].
  cbn [walk]. destruct i as [| i]; cbn [nth].
  - cbn. ring.
  - rewrite IH by lia. cbn. ring.
Qed.

(** X5: with zero volatility the draws do not matter: element [i] of every
    path is the start price compounded [i] times at the average return,
    [start * (1 + avg) ^ i]. *)
Theorem simulate_zero_volatility (deviate : nat -> R) (start avg : R)
    (days simulations : Z) (w : world) (j i : nat) :
  (j < Z.to_nat simulations)%nat ->
  (i <= Z.to_nat days)%nat ->
  exists (paths : list (list R)) (w' : world),
    simulate deviate start avg 0 days simulations w = (Ok paths, w')
    /\ nth i (nth j paths []) 0 = start * (1 + avg) ^ i.
Proof.
  intros Hj Hi. eexists. eexists. split; [apply simulate_run |].
  unfold ensemble.
  set (f := fun j0 : nat =>
              start :: walk deviate avg 0 (Z.to_nat days)
                         (draws w + j0 * Z.to_nat days) start).
  rewrite (nth_indep _ [] (f 0%nat)) by now rewrite length_map, length_seq.
  rewrite (map_nth f), seq_nth by exact Hj. unfold f.
  destruct i as [| i]; cbn [nth].
  - cbn. ring.
  - apply walk_compound. lia.
Qed.

Lemma simulate_zero_volatility_witness :
  exists (paths : list (list R)) (w' : world),
    simulate (fun j => INR j) 100 (1 / 10) 0 3 2 world0 = (Ok paths, w')
    /\ nth 2 (nth 1 paths []) 0 = 100 * (1 + 1 / 10) ^ 2.
Proof.
  apply (simulate_zero_volatility (fun j => INR j) 100 (1 / 10) 3 2 world0
           1 2); cbn; lia.
Defined.

Lemma ensemble_app (deviate : nat -> R) (start avg vol : R) (n m1 m2 : nat) :
  forall k : nat,
    ensemble deviate start avg vol n (m1 + m2) k
    = ensemble deviate start avg vol n m1 k
      ++ ensemble deviate start avg vol n m2 (m1 * n + k).
Proof.
  induction m1 as [| m1 IH]; intros k.
  - reflexivity.
  - cbn [Nat.add]. rewrite !ensemble_S, IH. cbn [app]. do 3 f_equal. lia.
Qed.

(** X6: simulating [m1 + m2] paths in one call gives the paths of a call
    for [m1] followed by those of a call for [m2] that continues with the
    generator where the first call left it. *)
Theorem simulate_split (deviate : nat -> R) (start avg vol : R)
    (days m1 m2 : Z) (w : world) :
  (0 <= m1)%Z ->
  (0 <= m2)%Z ->
  exists (paths1 paths2 : list (list R)) (w1 w2 : world),
    simulate deviate start avg vol days m1 w = (Ok paths1, w1)
    /\ simulate deviate start avg vol days m2 w1 = (Ok paths2, w2)
    /\ simulate deviate start avg vol days (m1 + m2) w
       = (Ok (paths1 ++ paths2), w2).
Proof.
  intros H1 H2. eexists. eexists. eexists. eexists.
  split; [apply simulate_run |]. split; [apply simulate_run |].
  rewrite simulate_run, Z2Nat.inj_add, ensemble_app, advance_advance
    by assumption.
  cbn [advance draws]. do 2 f_equal. lia.
Qed.

Lemma simulate_split_witness :
  exists (paths1 paths2 : list (list R)) (w1 w2 : world),
    simulate (fun j => INR j) 100 (1 / 100) (2 / 100) 30 400 world0
    = (Ok paths1, w1)
    /\ simulate (fun j => INR j) 100 (1 / 100) (2 / 100) 30 600 w1
       = (Ok paths2, w2)
    /\ simulate (fun j => INR j) 100 (1 / 100) (2 / 100) 30 (400 + 600) world0
       = (Ok (paths1 ++ paths2), w2).
Proof.
  apply (simulate_split (fun j => INR j) 100 (1 / 100) (2 / 100) 30 400 600
           world0); lia.
Defined.

Lemma walk_scale (deviate : nat -> R) (avg vol c : R) (n : nat) :
  forall (k : nat) (price : R),
    walk deviate avg vol n k (c * price)
    = map (Rmult c) (walk deviate avg vol n k price).
Proof.
  induction n as [| n IH]; intros k price; [reflexivity |].
  cbn [walk map]. rewrite <- IH. rewrite !Rmult_assoc. reflexivity.
Qed.

(** X7: the simulated prices are proportional to the start price: from
    the same generator state, the ensemble for the start price [c * start]
    is the ensemble for [start] with every element multiplied by [c]. *)
Theorem simulate_scale (deviate : nat -> R) (start avg vol c : R)
    (days simulations : Z) (w : world) :
  exists (paths : list (list R)) (w' : world),
    simulate deviate start avg vol days simulations w = (Ok paths, w')
    /\ simulate deviate (c * start) avg vol days simulations w
       = (Ok (map (map (Rmult c)) paths), w').
Proof.
  eexists. eexists. split; [apply simulate_run |].
  rewrite simulate_run. unfold ensemble. rewrite map_map.
  do 2 f_equal. apply map_ext. intros j. cbn [map].
  now rewrite walk_scale.
Qed.

(** ** The value at risk as a quantile *)

Lemma filter_length_perm {A} (f : A -> bool) (l l' : list A) :
  Permutation l l' -> length (filter f l) = length (filter f l').
Proof.
  induction 1 as [| x l l' _ IH | x y l | l l' l'' _ IH1 _ IH2].
  - reflexivity.
  - cbn [filter]. destruct (f x); cbn [length]; now rewrite IH.
  - cbn [filter]. destruct (f x), (f y); reflexivity.
  - now rewrite IH1.
Qed.

Lemma filter_none {A} (f : A -> bool) (l : list A) :
  Forall (fun x => f x = false) l -> filter f l = [].
Proof.
  induction 1 as [| x l Hx _ IH]; [reflexivity |].
  cbn [filter]. now rewrite Hx.
Qed.

Lemma filter_all {A} (f : A -> bool) (l : list A) :
  Forall (fun x => f x = true) l -> filter f l = l.
Proof.
  induction 1 as [| x l Hx _ IH]; [reflexivity |].
  cbn [filter]. now rewrite Hx, IH.
Qed.

Lemma sorted_from (s : list R) :
  StronglySorted Rle s ->
  forall k : nat, (k < length s)%nat ->
    Forall (fun x => nth k s 0 <= x) (skipn k s).
Proof.
  induction 1 as [| a s Hs IH Ha]; intros k Hk; [cbn in Hk; lia |].
  destruct k as [| k].
  - cbn [skipn nth]. constructor; [lra | exact Ha].
  - cbn [skipn nth]. apply IH. cbn in Hk. lia.
Qed.

Lemma sorted_up_to (s : list R) :
  StronglySorted Rle s ->
  forall k : nat, (k < length s)%nat ->
    Forall (fun x => x <= nth k s 0) (firstn (S k) s).
Proof.
  induction 1 as [| a s Hs IH Ha]; intros k Hk; [cbn in Hk; lia |].
  destruct k as [| k].
  - cbn. constructor; [lra | constructor].
  - cbn [nth]. change (firstn (S (S k)) (a :: s)) with (a :: firstn (S k) s).
    cbn in Hk. constructor.
    + rewrite Forall_forall in Ha. apply Ha, nth_In. lia.
    + apply IH. lia.
Qed.

Lemma sorted_count_below (s : list R) (k : nat) :
  Sorted Rle s -> (k < length s)%nat ->
  (count_below (nth k s 0%R) s <= k)%nat.
Proof.
  intros Hs Hk. apply Sorted_StronglySorted in Hs; [| exact Rle_trans].
  pose proof (sorted_from s Hs k Hk) as Hfrom.
  set (v := nth k s 0) in *. clearbody v.
  unfold count_below. rewrite <- (firstn_skipn k s).
  rewrite filter_app, length_app, (filter_none _ (skipn k s)).
  - cbn [length]. rewrite Nat.add_0_r.
    eapply Nat.le_trans; [apply filter_length_le |].
    rewrite length_firstn. lia.
  - eapply Forall_impl; [| exact Hfrom].
    cbn. intros x Hx. destruct (Rlt_dec x v); [lra | reflexivity].
Qed.

Lemma sorted_count_up_to (s : list R) (k : nat) :
  Sorted Rle s -> (k < length s)%nat ->
  (k < count_up_to (nth k s 0%R) s)%nat.
Proof.
  intros Hs Hk. apply Sorted_StronglySorted in Hs; [| exact Rle_trans].
  pose proof (sorted_up_to s Hs k Hk) as Hupto.
  set (v := nth k s 0) in *. clearbody v.
  unfold count_up_to. rewrite <- (firstn_skipn (S k) s).
  rewrite filter_app, length_app, (filter_all _ (firstn (S k) s)).
  - rewrite length_firstn. lia.
  - eapply Forall_impl; [| exact Hupto].
    cbn. intros x Hx. destruct (Rle_dec x v); [reflexivity | lra].
Qed.

Lemma var_index_in_range (prices : list R) :
  prices <> [] -> (length prices / 20 < length (sort_floats prices))%nat.
Proof.
  intros Hne. rewrite sort_floats_length.
  apply Nat.div_lt; [| lia].
  destruct prices; [now elim Hne | cbn; lia].
Qed.

(** X8: the value at risk is one of the terminal prices and a lower
    quantile of them: at most [floor(n / 20)] of the [n] prices are
    strictly below it, and more than [floor(n / 20)] are at most it. *)
Theorem compute_risk_metrics_quantile (w : world) (final_prices : ref)
    (prices : list R) (risk_free_rate : R) :
  nth_error (heap w) final_prices = Some prices ->
  prices <> [] ->
  exists (var_95 expected_return sharpe_ratio : R) (w' : world),
    compute_risk_metrics final_prices risk_free_rate w
    = (Ok (var_95, expected_return, sharpe_ratio), w')
    /\ In var_95 prices
    /\ (count_below var_95 prices <= length prices / 20)%nat
    /\ (length prices / 20 < count_up_to var_95 prices)%nat.
Proof.
  intros Hobj Hne.
  pose proof (var_index_in_range prices Hne) as Hk.
  pose proof (sort_floats_perm prices) as Hp.
  eexists. eexists. eexists. eexists.
  split; [apply (compute_risk_metrics_run w final_prices prices); assumption |].
  split; [| split].
  - eapply Permutation_in; [exact Hp |]. now apply nth_In.
  - unfold count_below.
    rewrite <- (filter_length_perm _ _ _ Hp).
    apply sorted_count_below; [apply sort_floats_sorted | exact Hk].
  - unfold count_up_to.
    rewrite <- (filter_length_perm _ _ _ Hp).
    apply sorted_count_up_to; [apply sort_floats_sorted | exact Hk].
Qed.

Lemma compute_risk_metrics_quantile_witness :
  exists (var_95 expected_return sharpe_ratio : R) (w' : world),
    compute_risk_metrics 0%nat (1 / 100) example_world
    = (Ok (var_95, expected_return, sharpe_ratio), w')
    /\ In var_95 example_prices
    /\ (count_below var_95 example_prices <= 0)%nat
    /\ (0 < count_up_to var_95 example_prices)%nat.
Proof.
  apply (compute_risk_metrics_quantile example_world 0%nat example_prices
           (1 / 100)).
  - reflexivity.
  - discriminate.
Defined.

(** ** The least price and the sign of the Sharpe ratio *)

Lemma length_pos_INR {A} (l : list A) : l <> [] -> 0 < INR (length l).
Proof.
  intros Hne. apply lt_0_INR. destruct l; [now elim Hne | cbn; lia].
Qed.

(** X9: with fewer than 20 terminal prices the value at risk is the
    least of them: it is one of the prices and no price is below it. *)
Theorem compute_risk_metrics_bounds (w : world) (final_prices : ref)
    (prices : list R) (risk_free_rate : R) :
  nth_error (heap w) final_prices = Some prices ->
  prices <> [] ->
  (length prices < 20)%nat ->
  exists (var_95 expected_return sharpe_ratio : R) (w' : world),
    compute_risk_metrics final_prices risk_free_rate w
    = (Ok (var_95, expected_return, sharpe_ratio), w')
    /\ In var_95 prices
    /\ (forall x : R, In x prices -> var_95 <= x).
Proof.
  intros Hobj Hne Hsmall.
  eexists. eexists. eexists. eexists.
  split; [apply (compute_risk_metrics_run w final_prices prices); assumption |].
  rewrite Nat.div_small by exact Hsmall.
  pose proof (var_index_in_range prices Hne) as Hk.
  rewrite Nat.div_small in Hk by exact Hsmall.
  pose proof (sort_floats_perm prices) as Hp.
  pose proof (sort_floats_sorted prices) as Hs.
  apply Sorted_StronglySorted in Hs; [| exact Rle_trans].
  pose proof (sorted_from _ Hs 0%nat Hk) as Hmin.
  cbn [skipn] in Hmin. rewrite Forall_forall in Hmin.
  split.
  - eapply Permutation_in; [exact Hp |]. now apply nth_In.
  - intros x Hx. apply Hmin.
    eapply Permutation_in; [apply Permutation_sym, Hp | exact Hx].
Qed.

Lemma compute_risk_metrics_bounds_witness :
  exists (var_95 expected_return sharpe_ratio : R) (w' : world),
    compute_risk_metrics 0%nat (1 / 100)
      (mkWorld [] 0 [[110; 90; 105; 95; 100]])
    = (Ok (var_95, expected_return, sharpe_ratio), w')
    /\ In var_95 [110; 90; 105; 95; 100]
    /\ (forall x : R, In x [110; 90; 105; 95; 100] -> var_95 <= x).
Proof.
  apply (compute_risk_metrics_bounds (mkWorld [] 0 [[110; 90; 105; 95; 100]])
           0%nat [110; 90; 105; 95; 100] (1 / 100)).
  - reflexivity.
  - discriminate.
  - cbn. lia.
Defined.

Lemma total_zero_inv (l : list R) :
  Forall (fun x => 0 <= x) l -> total l = 0 -> Forall (fun x => x = 0) l.
Proof.
  unfold total. induction 1 as [| a l Ha Hl IH]; intros Hz.
  - constructor.
  - cbn [fold_right] in Hz.
    assert (Hrest : 0 <= fold_right Rplus 0 l).
    { clear -Hl. induction Hl as [| b l Hb _ IH]; cbn; lra. }
    constructor; [lra |]. apply IH. lra.
Qed.

(** The volatility is zero only when every price equals the mean. *)
Lemma pstdev_zero_inv (l : list R) :
  l <> [] -> pstdev l = 0 -> Forall (fun x => x = mean l) l.
Proof.
  intros Hne Hz. pose proof (length_pos_INR l Hne) as Hn.
  unfold pstdev in Hz. apply sqrt_eq_0 in Hz.
  - assert (Ht : total (map (fun x => (x - mean l) ^ 2) l) = 0).
    { apply Rmult_eq_reg_r with (/ INR (length l)).
      - rewrite Rmult_0_l. exact Hz.
      - apply Rinv_neq_0_compat. lra. }
    apply total_zero_inv in Ht.
    + rewrite Forall_map in Ht. eapply Forall_impl; [| exact Ht].
      cbn. intros x Hx. apply Rminus_diag_uniq. nra.
    + apply Forall_map, Forall_forall. intros x _. apply pow2_ge_0.
  - apply Rmult_le_pos; [apply total_squares_nonneg |].
    apply Rlt_le, Rinv_0_lt_compat, Hn.
Qed.

(** X10: when the terminal prices are not all equal to their mean, the
    volatility is positive and the Sharpe ratio has the sign of
    [expected_return - risk_free_rate]: it is positive exactly when the
    expected return exceeds the risk-free rate, negative exactly when it
    is below, and zero exactly when the two are equal. *)
Theorem compute_risk_metrics_sharpe_sign (w : world) (final_prices : ref)
    (prices : list R) (risk_free_rate : R) :
  nth_error (heap w) final_prices = Some prices ->
  Exists (fun x => x <> mean prices) prices ->
  exists (var_95 expected_return sharpe_ratio : R) (w' : world),
    compute_risk_metrics final_prices risk_free_rate w
    = (Ok (var_95, expected_return, sharpe_ratio), w')
    /\ 0 < pstdev prices
    /\ sharpe_ratio * pstdev prices = expected_return - risk_free_rate
    /\ (0 < sharpe_ratio <-> risk_free_rate < expected_return)
    /\ (sharpe_ratio < 0 <-> expected_return < risk_free_rate)
    /\ (sharpe_ratio = 0 <-> expected_return = risk_free_rate).
Proof.
  intros Hobj Hex.
  assert (Hne : prices <> []) by (intros E; rewrite E in Hex; inversion Hex).
  assert (Hnz : pstdev prices <> 0).
  { intros Hz. apply pstdev_zero_inv in Hz; [| exact Hne].
    apply Exists_exists in Hex. destruct Hex as [x [Hx Hneq]].
    rewrite Forall_forall in Hz. now apply Hneq, Hz. }
  assert (Hpos : 0 < pstdev prices).
  { pose proof (sqrt_pos
                  (total (map (fun x => (x - mean prices) ^ 2) prices)
                   / INR (length prices))) as H.
    fold (pstdev prices) in H. lra. }
  eexists. eexists. eexists. eexists.
  split; [apply (compute_risk_metrics_run w final_prices prices); assumption |].
  destruct (Req_dec_T (pstdev prices) 0) as [Hz | _]; [contradiction |].
  set (d := mean prices - risk_free_rate).
  assert (Hmul : d / pstdev prices * pstdev prices = d) by now field.
  assert (Hinv : 0 < / pstdev prices) by now apply Rinv_0_lt_compat.
  split; [exact Hpos |]. split; [exact Hmul |].
  unfold Rdiv in *. repeat split; intros H; subst d; nra.
Qed.

Lemma compute_risk_metrics_sharpe_sign_witness :
  exists (var_95 expected_return sharpe_ratio : R) (w' : world),
    compute_risk_metrics 0%nat (1 / 100) example_world
    = (Ok (var_95, expected_return, sharpe_ratio), w')
    /\ 0 < pstdev example_prices
    /\ sharpe_ratio * pstdev example_prices = expected_return - 1 / 100
    /\ (0 < sharpe_ratio <-> 1 / 100 < expected_return)
    /\ (sharpe_ratio < 0 <-> expected_return < 1 / 100)
    /\ (sharpe_ratio = 0 <-> expected_return = 1 / 100).
Proof.
  apply (compute_risk_metrics_sharpe_sign example_world 0%nat example_prices
           (1 / 100)).
  - reflexivity.
  - apply Exists_cons_hd. rewrite mean_example. lra.
Defined.

(** X11: the value at risk does not depend on the order of the terminal
    prices: two list objects that hold the same prices in different
    orders give the same value at risk. *)
Theorem compute_risk_metrics_var_order (w1 w2 : world) (r1 r2 : ref)
    (prices1 prices2 : list R) (rate1 rate2 : R) :
  nth_error (heap w1) r1 = Some prices1 ->
  nth_error (heap w2) r2 = Some prices2 ->
  prices1 <> [] ->
  Permutation prices1 prices2 ->
  exists (var_95 e1 s1 e2 s2 : R) (w1' w2' : world),
    compute_risk_metrics r1 rate1 w1 = (Ok (var_95, e1, s1), w1')
    /\ compute_risk_metrics r2 rate2 w2 = (Ok (var_95, e2, s2), w2').
Proof.
  intros H1 H2 Hne Hp.
  assert (Hne2 : prices2 <> []).
  { intros E. rewrite E in Hp.
    apply Permutation_sym, Permutation_nil in Hp. contradiction. }
  assert (Hs : sort_floats prices1 = sort_floats prices2).
  { apply sorted_perm_unique; try apply sort_floats_sorted.
    eapply perm_trans; [apply sort_floats_perm |].
    eapply perm_trans; [exact Hp | apply Permutation_sym, sort_floats_perm]. }
  do 7 eexists. split.
  - apply (compute_risk_metrics_run w1 r1 prices1); assumption.
  - rewrite (compute_risk_metrics_run w2 r2 prices2) by assumption.
    now rewrite Hs, (Permutation_length Hp).
Qed.

Lemma compute_risk_metrics_var_order_witness :
  exists (var_95 e1 s1 e2 s2 : R) (w1' w2' : world),
    compute_risk_metrics 0%nat (1 / 100) example_world
    = (Ok (var_95, e1, s1), w1')
    /\ compute_risk_metrics 0%nat (2 / 100)
         (mkWorld [] 0 [[110; 90; 95; 100; 105]])
       = (Ok (var_95, e2, s2), w2').
Proof.
  apply (compute_risk_metrics_var_order example_world
           (mkWorld [] 0 [[110; 90; 95; 100; 105]]) 0%nat 0%nat
           example_prices [110; 90; 95; 100; 105]).
  - reflexivity.
  - reflexivity.
  - discriminate.
  - unfold example_prices.
    change [110; 90; 95; 100; 105] with ([110] ++ [90; 95; 100; 105]).
    change [90; 95; 100; 105; 110] with ([90; 95; 100; 105] ++ [110]).
    apply Permutation_app_comm.
Defined.

(** * The callbacks *)

(** ** Terminal prices *)

Lemma nth_error_last {A} (l : list A) (d : A) :
  l <> [] -> nth_error l (length l - 1) = Some (last l d).
Proof.
  intros Hne. rewrite (app_removelast_last d Hne) at 1 2.
  rewrite nth_error_app2; rewrite length_app; cbn [length]; [| lia].
  now replace (length (removelast l) + 1 - 1 - length (removelast l))%nat
    with 0%nat by lia.
Qed.

Lemma py_getitem_last (path : list R) (w : world) :
  path <> [] -> py_getitem path (-1) w = (Ok (last path 0), w).
Proof.
  intros Hne. unfold py_getitem, py_len.
  assert (Hlen : (0 < length path)%nat)
    by (destruct path; [now elim Hne | cbn; lia]).
  change (-1 <? 0)%Z with true. cbv iota.
  destruct (Z.of_nat (length path) + -1 <? 0)%Z eqn:E;
    [apply Z.ltb_lt in E; lia |].
  replace (Z.to_nat (Z.of_nat (length path) + -1))
    with (length path - 1)%nat by lia.
  now rewrite (nth_error_last path 0 Hne).
Qed.

Lemma final_prices_of_run (paths : list (list R)) (w : world) :
  Forall (fun path => path <> []) paths ->
  final_prices_of paths w = (Ok (terminal_prices paths), w).
Proof.
  intros Hne. unfold final_prices_of, terminal_prices.
  apply comprehension_pure. intros path Hin.
  apply py_getitem_last. rewrite Forall_forall in Hne. now apply Hne.
Qed.

Lemma ensemble_nonempty_paths (deviate : nat -> R) (start avg vol : R)
    (n m k : nat) :
  Forall (fun path => path <> []) (ensemble deviate start avg vol n m k).
Proof.
  apply Forall_forall. intros path Hin.
  apply ensemble_In in Hin. destruct Hin as [j [_ ->]]. discriminate.
Qed.

Lemma alloc_run (l : list R) (w : world) :
  alloc l w = (Ok (length (heap w)), with_object w l).
Proof. reflexivity. Qed.

Lemma nth_error_new_object (w : world) (l : list R) :
  nth_error (heap (with_object w l)) (length (heap w)) = Some l.
Proof.
  cbn [with_object heap]. rewrite nth_error_app2 by lia.
  now rewrite Nat.sub_diag.
Qed.

(** ** [run_sim] and [run_risk] *)

Section Callbacks.

Variable db : database.
Variable deviate : nat -> R.
Variable symbol_text : string.
Variables days_text sim_text : option Z.

Let symbol := symbol_or_default symbol_text.
Let days := int_or days_text 30.
Let simulations := int_or sim_text 1000.
Let paths (w : world) : list (list R) :=
  ensemble deviate (latest_close (db symbol))
    (avg_return_of (returns_of (db symbol)))
    (volatility_of (returns_of (db symbol)))
    (Z.to_nat days) (Z.to_nat simulations) (draws w).

Lemma paths_nonempty (w : world) :
  (1 <= simulations)%Z -> exists p ps, paths w = p :: ps.
Proof.
  intros Hs. unfold paths.
  destruct (Z.to_nat simulations) as [| m] eqn:E; [lia |].
  rewrite ensemble_S. eauto.
Qed.

Lemma run_sim_run (w : world) :
  (2 <= length (db symbol))%nat ->
  divisors_nonzero (db symbol) ->
  (1 <= simulations)%Z ->
  run_sim db deviate symbol_text days_text sim_text w
  = (Ok (Display (paths w)),
     advance w (Z.to_nat simulations * Z.to_nat days)).
Proof.
  intros Hlen Hnz Hs. unfold run_sim.
  step (monte_carlo_simulation_run_divisors db deviate symbol days
          simulations w Hlen Hnz).
  fold (paths w). destruct (paths_nonempty w Hs) as [p [ps ->]].
  reflexivity.
Qed.

Lemma run_risk_run (w : world) :
  (2 <= length (db symbol))%nat ->
  divisors_nonzero (db symbol) ->
  (1 <= simulations)%Z ->
  let prices := terminal_prices (paths w) in
  run_risk db deviate symbol_text days_text sim_text w
  = (Ok (Display
           (nth (length prices / 20) (sort_floats prices) 0,
            mean prices,
            (if Req_dec_T (pstdev prices) 0 then 0
             else (mean prices - 1 / 100) / pstdev prices),
            paths w)),
     with_object
       (with_object (advance w (Z.to_nat simulations * Z.to_nat days)) prices)
       (sort_floats prices)).
Proof.
  intros Hlen Hnz Hs prices. unfold run_risk.
  step (monte_carlo_simulation_run_divisors db deviate symbol days
          simulations w Hlen Hnz).
  fold (paths w).
  set (w1 := advance w (Z.to_nat simulations * Z.to_nat days)).
  assert (Hfinal : final_prices_of (paths w) w1 = (Ok prices, w1))
    by apply final_prices_of_run, ensemble_nonempty_paths.
  assert (Hne : prices <> []).
  { unfold prices. destruct (paths_nonempty w Hs) as [p [ps ->]].
    discriminate. }
  destruct (paths w) as [| p ps] eqn:Ep;
    [destruct (paths_nonempty w Hs) as [p [ps E]]; congruence |].
  step Hfinal. step (alloc_run prices w1).
  now step (compute_risk_metrics_run (with_object w1 prices)
              (length (heap w1)) prices (1 / 100)
              (nth_error_new_object w1 prices) Hne).
Qed.

End Callbacks.

Lemma terminal_prices_no_steps (p : R) (m : nat) :
  terminal_prices (repeat [p] m) = repeat p m.
Proof.
  unfold terminal_prices. induction m as [| m IH]; [reflexivity |].
  cbn [repeat map]. now rewrite IH.
Qed.

Lemma Forall_repeat {A} (x : A) (n : nat) :
  Forall (fun y => y = x) (repeat x n).
Proof.
  apply Forall_forall. intros y Hy. now apply repeat_spec in Hy.
Qed.

(** X12: [run_sim] on a symbol whose divisor closes are nonzero.  With
    fewer than two rows for the symbol (an empty symbol entry means
    "AAPL") or with a simulation count of zero or less (an unreadable
    count means 1000) it shows the error dialog and takes nothing from the
    generator; otherwise it plots one path per simulation, each starting
    at the latest close (an unreadable day count means 30). *)
Theorem run_sim_outcome (db : database) (deviate : nat -> R)
    (symbol_text : string) (days_text sim_text : option Z) (w : world) :
  divisors_nonzero (db (symbol_or_default symbol_text)) ->
  (((length (db (symbol_or_default symbol_text)) < 2)%nat
    \/ (int_or sim_text 1000 <= 0)%Z) ->
   exists w' : world,
     run_sim db deviate symbol_text days_text sim_text w
     = (Ok (ShowError "Error"
              "No simulation data available. Check stock data."), w')
     /\ draws w' = draws w /\ heap w' = heap w)
  /\ (((2 <= length (db (symbol_or_default symbol_text)))%nat
       /\ (1 <= int_or sim_text 1000)%Z) ->
      exists (paths : list (list R)) (w' : world),
        run_sim db deviate symbol_text days_text sim_text w
        = (Ok (Display paths), w')
        /\ length paths = Z.to_nat (int_or sim_text 1000)
        /\ Forall (fun path =>
                     length path = S (Z.to_nat (int_or days_text 30))
                     /\ nth_error path 0
                        = Some (latest_close
                                  (db (symbol_or_default symbol_text))))
             paths).
Proof.
  intros Hnz. split.
  - intros Hbad. unfold run_sim.
    destruct (Nat.lt_ge_cases (length (db (symbol_or_default symbol_text))) 2)
      as [Hshort | Hlen].
    + step (monte_carlo_simulation_short_history db deviate
              (symbol_or_default symbol_text) (int_or days_text 30)
              (int_or sim_text 1000) w Hshort).
      eexists. split; [reflexivity |]. now split.
    + destruct Hbad as [Hshort | Hs]; [lia |].
      step (monte_carlo_simulation_run_divisors db deviate
              (symbol_or_default symbol_text) (int_or days_text 30)
              (int_or sim_text 1000) w Hlen Hnz).
      replace (Z.to_nat (int_or sim_text 1000)) with 0%nat by lia.
      eexists. split; [reflexivity |]. now split.
  - intros [Hlen Hs]. eexists. eexists.
    split; [now apply run_sim_run |].
    split; [apply ensemble_length |].
    apply Forall_forall. intros path Hin.
    apply ensemble_In in Hin. destruct Hin as [j [_ ->]].
    split; [| reflexivity]. cbn [length]. now rewrite walk_length.
Qed.

Lemma run_sim_outcome_witness :
  (exists w' : world,
     run_sim two_records (fun _ => 0) "" None (Some 0%Z) world0
     = (Ok (ShowError "Error"
              "No simulation data available. Check stock data."), w')
     /\ draws w' = 0%nat /\ heap w' = [])
  /\ (exists (paths : list (list R)) (w' : world),
        run_sim two_records (fun _ => 0) "" None None world0
        = (Ok (Display paths), w')
        /\ length paths = 1000%nat
        /\ Forall (fun path => length path = 31%nat
                               /\ nth_error path 0 = Some 110) paths).
Proof.
  split.
  - apply (run_sim_outcome two_records (fun _ => 0) "" None (Some 0%Z) world0).
    + intros i Hi. cbn in Hi. destruct i; [cbn; lra | lia].
    + right. cbn. lia.
  - apply (run_sim_outcome two_records (fun _ => 0) "" None None world0).
    + intros i Hi. cbn in Hi. destruct i; [cbn; lra | lia].
    + split; cbn; lia.
Defined.

(** X13: [run_risk] on a symbol whose divisor closes are nonzero.  With
    fewer than two rows or a simulation count of zero or less it shows the
    error dialog and [compute_risk_metrics] is not called.  Otherwise it
    calls [compute_risk_metrics], with the rate 0.01, on a new list that
    holds the last element of every path, one per simulation and so never
    empty, and shows what that call returns together with the paths (or
    fails as that call fails): the call cannot raise [IndexError], and a
    value at risk it returns is one of those last elements. *)
Theorem run_risk_outcome (db : database) (deviate : nat -> R)
    (symbol_text : string) (days_text sim_text : option Z) (w : world) :
  divisors_nonzero (db (symbol_or_default symbol_text)) ->
  (((length (db (symbol_or_default symbol_text)) < 2)%nat
    \/ (int_or sim_text 1000 <= 0)%Z) ->
   exists w' : world,
     run_risk db deviate symbol_text days_text sim_text w
     = (Ok (ShowError "Error"
              "No simulation data available. Check stock data."), w')
     /\ draws w' = draws w /\ heap w' = heap w)
  /\ (((2 <= length (db (symbol_or_default symbol_text)))%nat
       /\ (1 <= int_or sim_text 1000)%Z) ->
      exists (paths : list (list R)) (w1 : world),
        monte_carlo_simulation db deviate (symbol_or_default symbol_text)
          (int_or days_text 30) (int_or sim_text 1000) w
        = (Ok (Some paths), w1)
        /\ length (terminal_prices paths) = Z.to_nat (int_or sim_text 1000)
        /\ terminal_prices paths <> []
        /\ run_risk db deviate symbol_text days_text sim_text w
           = match compute_risk_metrics (length (heap w1)) (1 / 100)
                     (with_object w1 (terminal_prices paths)) with
             | (Ok metrics, w') => (Ok (Display (metrics, paths)), w')
             | (Raise e, w') => (Raise e, w')
             end
        /\ fst (compute_risk_metrics (length (heap w1)) (1 / 100)
                  (with_object w1 (terminal_prices paths)))
           <> Raise IndexError
        /\ (forall (var_95 expected_return sharpe_ratio : R) (w' : world),
              compute_risk_metrics (length (heap w1)) (1 / 100)
                (with_object w1 (terminal_prices paths))
              = (Ok (var_95, expected_return, sharpe_ratio), w') ->
              In var_95 (terminal_prices paths))).
Proof.
  intros Hnz. split.
  - intros Hbad. unfold run_risk.
    destruct (Nat.lt_ge_cases (length (db (symbol_or_default symbol_text))) 2)
      as [Hshort | Hlen].
    + step (monte_carlo_simulation_short_history db deviate
              (symbol_or_default symbol_text) (int_or days_text 30)
              (int_or sim_text 1000) w Hshort).
      eexists. split; [reflexivity |]. now split.
    + destruct Hbad as [Hshort | Hs]; [lia |].
      step (monte_carlo_simulation_run_divisors db deviate
              (symbol_or_default symbol_text) (int_or days_text 30)
              (int_or sim_text 1000) w Hlen Hnz).
      replace (Z.to_nat (int_or sim_text 1000)) with 0%nat by lia.
      eexists. split; [reflexivity |]. now split.
  - intros [Hlen Hs].
    pose proof (monte_carlo_simulation_run_divisors db deviate
                  (symbol_or_default symbol_text) (int_or days_text 30)
                  (int_or sim_text 1000) w Hlen Hnz) as Hmc.
    destruct (paths_nonempty db deviate symbol_text days_text sim_text w Hs)
      as [p [ps Ep]].
    remember (ensemble deviate
                (latest_close (db (symbol_or_default symbol_text)))
                (avg_return_of
                   (returns_of (db (symbol_or_default symbol_text))))
                (volatility_of
                   (returns_of (db (symbol_or_default symbol_text))))
                (Z.to_nat (int_or days_text 30))
                (Z.to_nat (int_or sim_text 1000)) (draws w))
      as paths eqn:Epaths.
    set (w1 := advance w (Z.to_nat (int_or sim_text 1000)
                          * Z.to_nat (int_or days_text 30))) in *.
    assert (Hne : terminal_prices paths <> [])
      by (rewrite Ep; discriminate).
    assert (Hfinal : final_prices_of paths w1
                     = (Ok (terminal_prices paths), w1))
      by (rewrite Epaths;
          apply final_prices_of_run, ensemble_nonempty_paths).
    pose proof (compute_risk_metrics_run
                  (with_object w1 (terminal_prices paths))
                  (length (heap w1)) (terminal_prices paths) (1 / 100)
                  (nth_error_new_object w1 (terminal_prices paths)) Hne)
      as Hcrm.
    exists paths, w1. split; [exact Hmc |].
    split.
    { unfold terminal_prices. rewrite length_map, Epaths.
      apply ensemble_length. }
    split; [exact Hne |]. split; [| split].
    + unfold run_risk. step Hmc. rewrite Ep in *.
      step Hfinal. step (alloc_run (terminal_prices (p :: ps)) w1).
      unfold bind.
      now destruct (compute_risk_metrics (length (heap w1)) (1 / 100)
                      (with_object w1 (terminal_prices (p :: ps))))
        as [[metrics | e] w'].
    + rewrite Hcrm. discriminate.
    + intros v e s w' Hok. rewrite Hcrm in Hok.
      injection Hok as <- _ _ _.
      eapply Permutation_in; [apply sort_floats_perm |].
      apply nth_In, var_index_in_range, Hne.
Qed.

Lemma run_risk_outcome_witness :
  (exists w' : world,
     run_risk one_record (fun _ => 0) "MSFT" (Some 10%Z) (Some 5%Z) world0
     = (Ok (ShowError "Error"
              "No simulation data available. Check stock data."), w')
     /\ draws w' = 0%nat /\ heap w' = [])
  /\ (exists (paths : list (list R)) (w1 : world),
        monte_carlo_simulation two_records (fun _ => 0) "MSFT" 10 5 world0
        = (Ok (Some paths), w1)
        /\ length (terminal_prices paths) = 5%nat
        /\ run_risk two_records (fun _ => 0) "MSFT" (Some 10%Z) (Some 5%Z)
             world0
           = match compute_risk_metrics (length (heap w1)) (1 / 100)
                     (with_object w1 (terminal_prices paths)) with
             | (Ok metrics, w') => (Ok (Display (metrics, paths)), w')
             | (Raise e, w') => (Raise e, w')
             end).
Proof.
  split.
  - apply (run_risk_outcome one_record (fun _ => 0) "MSFT" (Some 10%Z)
             (Some 5%Z) world0).
    + intros i Hi. cbn in Hi. lia.
    + left. cbn. lia.
  - destruct (run_risk_outcome two_records (fun _ => 0) "MSFT" (Some 10%Z)
                (Some 5%Z) world0) as [_ Hshow].
    + intros i Hi. cbn in Hi. destruct i; [cbn; lra | lia].
    + destruct Hshow as [paths [w1 [Hmc [Hl [_ [Hrun _]]]]]].
      * split; cbn; lia.
      * exists paths, w1. repeat split; assumption.
Defined.

(** X14: with a day count of zero or less, [run_risk] on a symbol with at
    least two rows, nonzero divisor closes and at least one simulation
    takes nothing from the generator: every path is just the latest close,
    and the value at risk shown is the latest close. *)
Theorem run_risk_no_days (db : database) (deviate : nat -> R)
    (symbol_text : string) (days_text sim_text : option Z) (w : world) :
  (2 <= length (db (symbol_or_default symbol_text)))%nat ->
  divisors_nonzero (db (symbol_or_default symbol_text)) ->
  (1 <= int_or sim_text 1000)%Z ->
  (int_or days_text 30 <= 0)%Z ->
  exists (expected_return sharpe_ratio : R) (w' : world),
    run_risk db deviate symbol_text days_text sim_text w
    = (Ok (Display
             (latest_close (db (symbol_or_default symbol_text)),
              expected_return, sharpe_ratio,
              repeat [latest_close (db (symbol_or_default symbol_text))]
                (Z.to_nat (int_or sim_text 1000)))), w')
    /\ draws w' = draws w.
Proof.
  intros Hlen Hnz Hs Hd.
  pose proof (run_risk_run db deviate symbol_text days_text sim_text w
                Hlen Hnz Hs) as Hrun. cbv zeta in Hrun.
  replace (Z.to_nat (int_or days_text 30)) with 0%nat in Hrun by lia.
  rewrite ensemble_no_steps, terminal_prices_no_steps in Hrun.
  set (p := latest_close (db (symbol_or_default symbol_text))) in *.
  set (m := Z.to_nat (int_or sim_text 1000)) in *.
  assert (Hne : repeat p m <> [])
    by (destruct m eqn:E; [subst m; lia | discriminate]).
  pose proof (Forall_repeat p m) as Hall.
  assert (Hvar : nth (length (repeat p m) / 20) (sort_floats (repeat p m)) 0
                 = p).
  { rewrite Forall_forall in Hall. apply Hall.
    eapply Permutation_in; [apply sort_floats_perm |].
    apply nth_In, var_index_in_range, Hne. }
  rewrite Hvar in Hrun.
  eexists. eexists. eexists. split; [exact Hrun |].
  cbn [with_object advance draws]. lia.
Qed.

Lemma run_risk_no_days_witness :
  exists (expected_return sharpe_ratio : R) (w' : world),
    run_risk two_records (fun _ => 0) "" (Some 0%Z) (Some 3%Z) world0
    = (Ok (Display (110, expected_return, sharpe_ratio,
                    [[110]; [110]; [110]])), w')
    /\ draws w' = 0%nat.
Proof.
  apply (run_risk_no_days two_records (fun _ => 0) "" (Some 0%Z) (Some 3%Z)
           world0).
  - cbn. lia.
  - intros i Hi. cbn in Hi. destruct i; [cbn; lra | lia].
  - cbn. lia.
  - cbn. lia.
Defined.

(** ** [run_portfolio] *)

Section Portfolio.

Variable db : database.
Variable deviate : nat -> R.
Variable qty_text : string -> option R.
Variable days : Z.

(** One symbol of the loop: nothing is raised, the initial total grows by
    the quantity times the latest close when the symbol has at least two
    rows, and with no day to simulate nothing is drawn. *)
Lemma portfolio_step_run (sym : string) (acc : totals) (w : world) :
  divisors_nonzero (db sym) ->
  exists (acc' : totals) (w' : world),
    portfolio_step db deviate qty_text days sym acc w = (Ok acc', w')
    /\ total_initial acc'
       = add_initial db qty_text (total_initial acc) sym
    /\ heap w' = heap w
    /\ ((length (db sym) < 2)%nat -> draws w' = draws w)
    /\ ((days <= 0)%Z -> draws w' = draws w).
Proof.
  intros Hnz. unfold portfolio_step, add_initial.
  destruct (latest_row (db sym)) as [r |] eqn:Erow.
  2:{ apply latest_row_none in Erow. rewrite Erow. cbn.
      exists acc, w. repeat split; reflexivity. }
  - assert (Hlatest : latest_close (db sym) = close_price r)
      by (unfold latest_close; now rewrite Erow).
    destruct (Nat.lt_ge_cases (length (db sym)) 2) as [Hshort | Hlen].
    + step (monte_carlo_simulation_short_history db deviate sym days 100 w
              Hshort).
      destruct (2 <=? length (db sym))%nat eqn:E;
        [apply Nat.leb_le in E; lia |].
      eexists. eexists. split; [reflexivity |]. repeat split; reflexivity.
    + step (monte_carlo_simulation_run_divisors db deviate sym days 100 w
              Hlen Hnz).
      change (Z.to_nat 100) with 100%nat.
      remember (ensemble deviate (latest_close (db sym))
                  (avg_return_of (returns_of (db sym)))
                  (volatility_of (returns_of (db sym)))
                  (Z.to_nat days) 100 (draws w)) as paths eqn:Epaths.
      set (w1 := advance w (100 * Z.to_nat days)).
      assert (Hfinal : final_prices_of paths w1
                       = (Ok (terminal_prices paths), w1))
        by (rewrite Epaths;
            apply final_prices_of_run, ensemble_nonempty_paths).
      assert (Hne : paths <> [])
        by (rewrite Epaths, ensemble_S; discriminate).
      destruct paths as [| p0 ps0]; [now elim Hne |].
      assert (Hdiv : py_div (py_sum (terminal_prices (p0 :: ps0)))
                       (IZR (py_len (terminal_prices (p0 :: ps0)))) w1
                     = (Ok (mean (terminal_prices (p0 :: ps0))), w1)).
      { rewrite py_div_ok.
        - unfold mean. now rewrite py_sum_total, py_len_INR.
        - unfold terminal_prices. cbn [map]. apply py_len_nonzero. }
      step Hfinal. step Hdiv.
      destruct (2 <=? length (db sym))%nat eqn:E;
        [| apply Nat.leb_gt in E; lia].
      eexists. eexists. split; [reflexivity |].
      cbn [total_initial total_predicted].
      split; [now rewrite Hlatest |]. split; [reflexivity |].
      split; [lia |].
      intros Hd. unfold w1. replace (Z.to_nat days) with 0%nat by lia.
      cbn [advance draws]. lia.
Qed.

Lemma portfolio_loop_run (syms : list string) :
  forall (acc : totals) (w : world),
    (forall sym, In sym syms -> divisors_nonzero (db sym)) ->
    exists (acc' : totals) (w' : world),
      for_each syms (portfolio_step db deviate qty_text days) acc w
      = (Ok acc', w')
      /\ total_initial acc'
         = fold_left (add_initial db qty_text) syms (total_initial acc)
      /\ heap w' = heap w
      /\ ((forall sym, In sym syms -> (length (db sym) < 2)%nat) ->
          draws w' = draws w)
      /\ ((days <= 0)%Z -> draws w' = draws w).
Proof.
  induction syms as [| sym syms IH]; intros acc w Hnz.
  - exists acc, w. cbn. repeat split; reflexivity.
  - destruct (portfolio_step_run sym acc w (Hnz sym (or_introl eq_refl)))
      as [acc1 [w1 [Hstep [Hti [Hheap [Hshort Hdays]]]]]].
    destruct (IH acc1 w1 (fun s Hs => Hnz s (or_intror Hs)))
      as [acc2 [w2 [Hloop [Hti2 [Hheap2 [Hshort2 Hdays2]]]]]].
    exists acc2, w2. cbn [for_each fold_left]. step Hstep.
    split; [exact Hloop |].
    split; [now rewrite Hti2, Hti |].
    split; [congruence |].
    split.
    + intros Hall. rewrite Hshort2, Hshort.
      * reflexivity.
      * apply Hall. now left.
      * intros s Hs. apply Hall. now right.
    + intros Hd. rewrite (Hdays2 Hd). exact (Hdays Hd).
Qed.

End Portfolio.

(** The whole callback in terms of the totals the loop leaves. *)
Lemma run_portfolio_run (db : database) (deviate : nat -> R)
    (qty_text : string -> option R) (days_text : option Z) (w : world) :
  (forall sym, In sym stocks -> divisors_nonzero (db sym)) ->
  exists (acc : totals) (w' : world),
    run_portfolio db deviate qty_text days_text w
    = (Ok (if Req_dec_T (total_initial acc) 0
           then ShowError "Error" "No valid data for portfolio calculation."
           else Display
                  ((total_predicted acc - total_initial acc)
                   / total_initial acc * 100, acc)),
       w')
    /\ total_initial acc = initial_value db qty_text
    /\ heap w' = heap w
    /\ ((forall sym, In sym stocks -> (length (db sym) < 2)%nat) ->
        draws w' = draws w)
    /\ ((int_or days_text 30 <= 0)%Z -> draws w' = draws w).
Proof.
  intros Hnz.
  destruct (portfolio_loop_run db deviate qty_text (int_or days_text 30)
              stocks (mkTotals 0 0 []) w Hnz)
    as [acc [w' [Hloop [Hti [Hheap [Hshort Hdays]]]]]].
  exists acc, w'. unfold run_portfolio. step Hloop.
  split.
  - destruct (Req_dec_T (total_initial acc) 0) as [Hz | Hnz0].
    + reflexivity.
    + now step (py_div_ok (total_predicted acc - total_initial acc)
                  (total_initial acc) w' Hnz0).
  - split; [exact Hti |]. split; [exact Hheap |].
    split; [exact Hshort | exact Hdays].
Qed.

(** X15: when no divisor close of the three symbols is zero,
    [run_portfolio] raises nothing: the division by the initial total is
    guarded.  The initial total is the sum, over the symbols with at least
    two rows, of quantity times latest close (an unreadable quantity
    counts as 0); when it is zero the error dialog is shown, otherwise the
    overall return shown is [(predicted - initial) / initial * 100]. *)
Theorem run_portfolio_outcome (db : database) (deviate : nat -> R)
    (qty_text : string -> option R) (days_text : option Z) (w : world) :
  (forall sym, In sym stocks -> divisors_nonzero (db sym)) ->
  (initial_value db qty_text = 0 ->
   exists w' : world,
     run_portfolio db deviate qty_text days_text w
     = (Ok (ShowError "Error" "No valid data for portfolio calculation."),
        w')
     /\ heap w' = heap w)
  /\ (initial_value db qty_text <> 0 ->
      exists (overall_return : R) (acc : totals) (w' : world),
        run_portfolio db deviate qty_text days_text w
        = (Ok (Display (overall_return, acc)), w')
        /\ total_initial acc = initial_value db qty_text
        /\ overall_return
           = (total_predicted acc - total_initial acc)
             / total_initial acc * 100
        /\ heap w' = heap w).
Proof.
  intros Hnz.
  destruct (run_portfolio_run db deviate qty_text days_text w Hnz)
    as [acc [w' [Hrun [Hti [Hheap _]]]]].
  split; intros Hv; rewrite <- Hti in Hv;
    destruct (Req_dec_T (total_initial acc) 0) as [Hz | Hnz0];
    try contradiction.
  - exists w'. now split.
  - eexists. exists acc, w'. split; [exact Hrun |]. now repeat split.
Qed.

Lemma initial_value_nothing (db : database) (qty_text : string -> option R)
    (syms : list string) :
  (forall sym, In sym syms ->
     (length (db sym) < 2)%nat \/ float_or (qty_text sym) 0 = 0) ->
  forall v : R, fold_left (add_initial db qty_text) syms v = v.
Proof.
  induction syms as [| sym syms IH]; intros Hall v; [reflexivity |].
  cbn [fold_left]. rewrite IH by (intros s Hs; apply Hall; now right).
  unfold add_initial.
  destruct (2 <=? length (db sym))%nat eqn:E; [| reflexivity].
  apply Nat.leb_le in E.
  destruct (Hall sym (or_introl eq_refl)) as [Hshort | Hq]; [lia |].
  rewrite Hq. ring.
Qed.

(** X17: when every one of the three symbols either has fewer than two
    rows or has a quantity of 0 (an empty or unreadable entry),
    [run_portfolio] shows the error dialog "No valid data for portfolio
    calculation."; and when all three have fewer than two rows, nothing is
    taken from the generator. *)
Theorem run_portfolio_nothing_to_value (db : database) (deviate : nat -> R)
    (qty_text : string -> option R) (days_text : option Z) (w : world) :
  (forall sym, In sym stocks -> divisors_nonzero (db sym)) ->
  (forall sym, In sym stocks ->
     (length (db sym) < 2)%nat \/ float_or (qty_text sym) 0 = 0) ->
  exists w' : world,
    run_portfolio db deviate qty_text days_text w
    = (Ok (ShowError "Error" "No valid data for portfolio calculation."),
       w')
    /\ heap w' = heap w
    /\ ((forall sym, In sym stocks -> (length (db sym) < 2)%nat) ->
        draws w' = draws w).
Proof.
  intros Hnz Hnothing.
  destruct (run_portfolio_run db deviate qty_text days_text w Hnz)
    as [acc [w' [Hrun [Hti [Hheap [Hshort _]]]]]].
  unfold initial_value in Hti.
  rewrite (initial_value_nothing db qty_text stocks Hnothing) in Hti.
  destruct (Req_dec_T (total_initial acc) 0) as [_ | N]; [| contradiction].
  exists w'. now repeat split.
Qed.

Lemma portfolio_db_divisors (sym : string) :
  In sym stocks -> divisors_nonzero (portfolio_db sym).
Proof.
  intros Hin i Hi. unfold stocks in Hin. cbn [In] in Hin.
  destruct Hin as [<- | [<- | [<- | []]]]; cbn in Hi |- *.
  - destruct i; [lra | lia].
  - lia.
  - lia.
Qed.

Lemma portfolio_initial_value : initial_value portfolio_db portfolio_qty = 220.
Proof.
  unfold initial_value, stocks, add_initial, portfolio_qty. cbn. lra.
Qed.

Lemma run_portfolio_outcome_witness :
  (exists w' : world,
     run_portfolio portfolio_db (fun _ => 0) (fun _ => None) None world0
     = (Ok (ShowError "Error" "No valid data for portfolio calculation."),
        w')
     /\ heap w' = [])
  /\ (exists (overall_return : R) (acc : totals) (w' : world),
        run_portfolio portfolio_db (fun _ => 0) portfolio_qty None world0
        = (Ok (Display (overall_return, acc)), w')
        /\ total_initial acc = initial_value portfolio_db portfolio_qty
        /\ overall_return
           = (total_predicted acc - total_initial acc)
             / total_initial acc * 100
        /\ heap w' = []).
Proof.
  split.
  - apply (run_portfolio_outcome portfolio_db (fun _ => 0) (fun _ => None)
             None world0 portfolio_db_divisors).
    unfold initial_value, stocks, add_initial. cbn. lra.
  - apply (run_portfolio_outcome portfolio_db (fun _ => 0) portfolio_qty
             None world0 portfolio_db_divisors).
    rewrite portfolio_initial_value. lra.
Defined.

Lemma run_portfolio_nothing_to_value_witness :
  exists w' : world,
    run_portfolio (fun _ => []) (fun _ => 0) portfolio_qty None world0
    = (Ok (ShowError "Error" "No valid data for portfolio calculation."),
       w')
    /\ heap w' = []
    /\ ((forall sym, In sym stocks -> (0 < 2)%nat) -> draws w' = 0%nat).
Proof.
  apply (run_portfolio_nothing_to_value (fun _ => []) (fun _ => 0)
           portfolio_qty None world0).
  - intros sym _ i Hi. cbn in Hi. lia.
  - intros sym _. left. cbn. lia.
Defined.

(** ** [monte_carlo_simulation] as a whole *)

(** X18: [monte_carlo_simulation] on a symbol whose divisor closes are
    nonzero.  With fewer than two rows it prints "Not enough data for
    simulation." and returns [None] without a draw; with at least two rows
    it returns [max(simulations, 0)] paths of [max(days, 0) + 1] elements,
    each starting at the latest close, after [max(simulations, 0) *
    max(days, 0)] draws, and prints nothing. *)
Theorem monte_carlo_simulation_outcome (db : database) (deviate : nat -> R)
    (symbol : string) (days simulations : Z) (w : world) :
  divisors_nonzero (db symbol) ->
  ((length (db symbol) < 2)%nat ->
   monte_carlo_simulation db deviate symbol days simulations w
   = (Ok None,
      mkWorld (stdout w ++ ["Not enough data for simulation."%string])
              (draws w) (heap w)))
  /\ ((2 <= length (db symbol))%nat ->
      exists paths : list (list R),
        monte_carlo_simulation db deviate symbol days simulations w
        = (Ok (Some paths),
           advance w (Z.to_nat simulations * Z.to_nat days))
        /\ length paths = Z.to_nat simulations
        /\ Forall (fun path =>
                     length path = S (Z.to_nat days)
                     /\ nth_error path 0 = Some (latest_close (db symbol)))
             paths).
Proof.
  intros Hnz. split.
  - apply monte_carlo_simulation_short_history.
  - intros Hlen. eexists.
    split; [now apply monte_carlo_simulation_run_divisors |].
    split; [apply ensemble_length |].
    apply Forall_forall. intros path Hin.
    apply ensemble_In in Hin. destruct Hin as [j [_ ->]].
    split; [| reflexivity]. cbn [length]. now rewrite walk_length.
Qed.

Lemma monte_carlo_simulation_outcome_witness :
  monte_carlo_simulation one_record (fun _ => 0) "AAPL" 3 4 world0
  = (Ok None, mkWorld ["Not enough data for simulation."%string] 0 [])
  /\ (exists paths : list (list R),
        monte_carlo_simulation two_records (fun _ => 0) "AAPL" 3 4 world0
        = (Ok (Some paths), mkWorld [] 12 [])
        /\ length paths = 4%nat
        /\ Forall (fun path => length path = 4%nat
                               /\ nth_error path 0 = Some 110) paths).
Proof.
  split.
  - apply (monte_carlo_simulation_outcome one_record (fun _ => 0) "AAPL" 3
             4 world0).
    + intros i Hi. cbn in Hi. lia.
    + cbn. lia.
  - apply (monte_carlo_simulation_outcome two_records (fun _ => 0) "AAPL" 3
             4 world0).
    + intros i Hi. cbn in Hi. destruct i; [cbn; lra | lia].
    + cbn. lia.
Defined.

(** ** Two rows on the latest date *)

(** After a second fetch on one day the latest date has two rows; the
    query of lines 78-79 returns the one inserted first, not the last row
    of the ascending list, and the paths start there. *)
Example last_close_duplicate_date :
  last_close duplicate_date "AAPL" world0 = (Ok 110, world0)
  /\ monte_carlo_simulation duplicate_date (fun _ => 0) "AAPL" 0 1 world0
     = (Ok (Some [[110]]), world0).
Proof.
  split; [reflexivity |].
  rewrite monte_carlo_simulation_run_divisors.
  - reflexivity.
  - cbn. lia.
  - intros i Hi. cbn in Hi.
    destruct i as [| [| i]]; [cbn; lra | cbn; lra | lia].
Qed.
